(** * Climate API (app.py): a shallow embedding and its properties

    The Flask application answers range queries over the [measurement]
    table of a SQLite database.  The table is modelled as the list of its
    rows in storage order, every query as a function of that list, and
    every route as a function returning the text or the JSON value the
    handler hands to Flask. *)

From Stdlib Require Import ZArith QArith Qminmax List String Ascii Bool Lia.
From Stdlib Require Import Permutation Sorted Lqa.
Import ListNotations.

Local Open Scope string_scope.

Set Warnings "-register-all".
Set Default Goal Selector "!".

(** ** Text: Python [str] and SQLite TEXT values

    Both Python's [str] comparison and SQLite's BINARY collation order
    strings lexicographically, character by character, a proper prefix
    coming first.  [String.compare] is that order. *)

Module Text.

Definition le (a b : string) : bool := String.leb a b.
Definition lt (a b : string) : bool := String.ltb a b.
(** Python's [a > b]. *)
Definition gt (a b : string) : bool := String.ltb b a.

(** [sub] occurs somewhere inside [s]. *)
Definition contains (sub s : string) : Prop :=
  exists pre post, s = pre ++ sub ++ post.

(** A value shown between single quotes, as the f-strings do. *)
Definition quoted (v : string) : string := "'" ++ v ++ "'".

End Text.

(** ** The date pattern

    [re.match("^[0-9]{4}-[0-9]{2}-[0-9]{2}", s)]: [re.match] anchors at the
    start of [s] and the pattern has no end anchor, so whatever follows
    the tenth character is not looked at. *)

Module Regex.

Inductive atom : Type :=
| Range (lo hi : ascii)          (* [lo-hi] *)
| Lit (c : ascii).               (* a literal character *)

Inductive item : Type :=
| Times (a : atom) (n : nat)     (* a{n} *)
| Once (a : atom).

Definition atom_matches (a : atom) (c : ascii) : bool :=
  match a with
  | Range lo hi => Ascii.leb lo c && Ascii.leb c hi
  | Lit c' => Ascii.eqb c' c
  end.

(** Consume exactly [n] characters matching [a]; the rest on success. *)
Fixpoint eat (a : atom) (n : nat) (s : string) : option string :=
  match n with
  | O => Some s
  | S n' =>
      match s with
      | EmptyString => None
      | String c s' => if atom_matches a c then eat a n' s' else None
      end
  end.

Definition eat_item (i : item) (s : string) : option string :=
  match i with
  | Times a n => eat a n s
  | Once a => eat a 1 s
  end.

(** [re.match] of a sequence of items: a match object exists or not. *)
Fixpoint re_match (p : list item) (s : string) : bool :=
  match p with
  | [] => true
  | i :: p' =>
      match eat_item i s with
      | Some rest => re_match p' rest
      | None => false
      end
  end.

Definition digit : atom := Range "0" "9".

(** ^[0-9]{4}-[0-9]{2}-[0-9]{2} *)
Definition date_pattern : list item :=
  [Times digit 4; Once (Lit "-"); Times digit 2; Once (Lit "-"); Times digit 2].

End Regex.

(** The check both temperature routes run on a path parameter. *)
Definition date_format_ok (s : string) : bool :=
  Regex.re_match Regex.date_pattern s.

(** The shape the specification describes: four digits, a hyphen, two
    digits, a hyphen, two digits, then anything. *)
Definition is_digit (c : ascii) : Prop :=
  (48 <= N_of_ascii c <= 57)%N.

Definition has_date_prefix (s : string) : Prop :=
  exists y1 y2 y3 y4 m1 m2 d1 d2 rest,
    Forall is_digit [y1; y2; y3; y4; m1; m2; d1; d2] /\
    s = String y1 (String y2 (String y3 (String y4 (String "-"
         (String m1 (String m2 (String "-"
         (String d1 (String d2 rest))))))))).

(** ** The measurement table

    Dates are stored as text.  Readings and amounts are nullable finite
    numbers; every finite binary64 value is a rational, so they are taken
    as rationals.  [min] and [max] return one of the stored values; what
    [avg] computes from them in floating point is left open, see
    [sqlite_avg]. *)

Record Measurement : Type := {
  station : string;
  date : string;
  prcp : option Q;
  tobs : option Q
}.

(** The table, in the order an unordered query returns its rows. *)
Definition Dataset : Type := list Measurement.

(** ** JSON values and responses *)

(** [JNaN], [JInfinity] and [JMinusInfinity] are the tokens [NaN],
    [Infinity] and [-Infinity] that Python's json writes for the floats
    that are not finite numbers. *)
Inductive json : Type :=
| JNull
| JNum (q : Q)
| JNaN
| JInfinity
| JMinusInfinity
| JStr (s : string)
| JArr (items : list json)
| JObj (fields : list (string * json)).

(** What a view function returns: a string, or [jsonify(...)]. *)
Inductive response : Type :=
| Text (body : string)
| Jsonify (payload : json).

(** A number of a query row, [None] being written [null]. *)
Definition json_of_number (v : option Q) : json :=
  match v with
  | Some q => JNum q
  | None => JNull
  end.

(** A binary64 result of SQLite: a finite number or an infinity. *)
Inductive sql_real : Type :=
| Finite (q : Q)
| PlusInfinity
| MinusInfinity.

Definition json_of_real (x : sql_real) : json :=
  match x with
  | Finite q => JNum q
  | PlusInfinity => JInfinity
  | MinusInfinity => JMinusInfinity
  end.

(** ** calc_temps *)

(** SQL aggregates skip NULL. *)
Fixpoint non_null (l : list (option Q)) : list Q :=
  match l with
  | [] => []
  | Some q :: l' => q :: non_null l'
  | None :: l' => non_null l'
  end.

Definition Qsum (l : list Q) : Q := fold_right Qplus 0%Q l.

(** The number of values averaged. *)
Definition count_of (l : list Q) : Q := inject_Z (Z.of_nat (List.length l)).

Definition func_min (l : list (option Q)) : option Q :=
  match non_null l with
  | [] => None
  | q :: qs => Some (fold_left Qmin qs q)
  end.

Definition func_max (l : list (option Q)) : option Q :=
  match non_null l with
  | [] => None
  | q :: qs => Some (fold_left Qmax qs q)
  end.

(** The mean of a list in exact arithmetic.  It is what [avg] rounds, not
    what [avg] returns; it serves to run the routes on sample data. *)
Definition exact_avg (l : list Q) : sql_real :=
  Finite (Qsum l / count_of l)%Q.

(** A row of the aggregate query. *)
Definition stats_row : Type := (option Q * option sql_real * option Q)%type.

(** [.filter(Measurement.date >= start_date)] and, when an end date is
    given, [.filter(Measurement.date <= end_date)].  [end_date = None]
    stands for the default argument [0]. *)
Definition in_range (start_date : string) (end_date : option string)
  (r : Measurement) : bool :=
  match end_date with
  | None => Text.le start_date (date r)
  | Some e => Text.le start_date (date r) && Text.le (date r) e
  end.

Section Temperatures.

(** SQLite's [avg] of the readings, in the order the rows are scanned: the
    binary64 sum of the readings over their count.  What binary64
    arithmetic does to the sum (rounding, overflow to an infinity, a
    result that depends on the order of the readings) is outside the
    model, so the function is a parameter; it is applied to non-empty
    lists only. *)
Variable sqlite_avg : list Q -> sql_real.

Definition func_avg (l : list (option Q)) : option sql_real :=
  match non_null l with
  | [] => None
  | q :: qs => Some (sqlite_avg (q :: qs))
  end.

Definition calc_temps (db : Dataset) (start_date : string)
  (end_date : option string) : list stats_row :=
  let selected := map tobs (filter (in_range start_date end_date) db) in
  let result := [(func_min selected, func_avg selected, func_max selected)] in
  match result with
  | [(None, None, None)] => []
  | _ => result
  end.

Definition json_of_stats_row (r : stats_row) : json :=
  let '(lo, mean, hi) := r in
  JArr [json_of_number lo;
        match mean with Some x => json_of_real x | None => JNull end;
        json_of_number hi].

(** ** The temperature routes *)

Definition twelve_spaces : string := "            ".

Definition invalid_start_message (start : string) : string :=
  "Your search of '" ++ start ++ "' is not in the correct format.<br/>"
  ++ twelve_spaces
  ++ "Please, search for a start date in the form yyyy-mm-dd (year-month-day).".

Definition no_match_start_message (start : string) : string :=
  "Your search of " ++ start ++ " did not match any records."
  ++ twelve_spaces ++ "Please, search for an earlier date.<br/>".

Definition invalid_range_message (start end_ : string) : string :=
  "Your search beginning with '" ++ start ++ "' and ending with '" ++ end_ ++ "'"
  ++ twelve_spaces
  ++ "is not in the correct format.<br/>Please, verify that both start and end dates"
  ++ twelve_spaces ++ "are in the form yyyy-mm-dd (year-month-day).".

Definition no_match_range_message (start end_ : string) : string :=
  "Your search beginning with '" ++ start ++ "' and ending with '" ++ end_ ++ "'"
  ++ twelve_spaces
  ++ "did not match any records.  Please, search for a different date range.<br/>".

Definition calc_temps_start (db : Dataset) (start : string) : response :=
  if negb (date_format_ok start) then Text (invalid_start_message start)
  else
    let result := calc_temps db start None in
    match result with
    | [] => Text (no_match_start_message start)
    | _ => Jsonify (JArr (map json_of_stats_row result))
    end.

(** The arguments [calc_temps] is called with by the two-date route. *)
Definition ordered_range (start end_ : string) : string * string :=
  if Text.gt start end_ then (end_, start) else (start, end_).

Definition calc_temps_start_end (db : Dataset) (start end_ : string) : response :=
  if negb (date_format_ok start) || negb (date_format_ok end_)
  then Text (invalid_range_message start end_)
  else
    let '(lo, hi) := ordered_range start end_ in
    let result := calc_temps db lo (Some hi) in
    match result with
    | [] => Text (no_match_range_message start end_)
    | _ => Jsonify (JArr (map json_of_stats_row result))
    end.

End Temperatures.

(** ** Exceptions

    The window routes call library functions that can raise; a raised
    exception ends the request. *)

Inductive exn : Type :=
| TypeError        (* strptime(None, ...) on an empty table *)
| ValueError       (* strptime on text that is not a date *)
| OverflowError.   (* date arithmetic leaving year 1..9999 *)

Inductive outcome (A : Type) : Type :=
| Ok (a : A)
| Raise (e : exn).

Arguments Ok {A} a.
Arguments Raise {A} e.

Definition bind {A B : Type} (m : outcome A) (k : A -> outcome B) : outcome B :=
  match m with
  | Ok a => k a
  | Raise e => Raise e
  end.

Notation "x <- m ;; k" := (bind m (fun x => k))
  (at level 61, m at next level, right associativity).

(** ** Calendar: the part of Python's datetime the routes use *)

Module Calendar.

Local Open Scope Z_scope.

Definition MINYEAR : Z := 1.
Definition MAXYEAR : Z := 9999.
Definition MAXORDINAL : Z := 3652059.

Definition DAYS_IN_MONTH : list Z :=
  [-1; 31; 28; 31; 30; 31; 30; 31; 31; 30; 31; 30; 31].
Definition DAYS_BEFORE_MONTH : list Z :=
  [-1; 0; 31; 59; 90; 120; 151; 181; 212; 243; 273; 304; 334].

Definition index (table : list Z) (i : Z) : Z := nth (Z.to_nat i) table 0.

Definition is_leap (year : Z) : bool :=
  (year mod 4 =? 0) && (negb (year mod 100 =? 0) || (year mod 400 =? 0)).

Definition days_before_year (year : Z) : Z :=
  let y := year - 1 in y * 365 + y / 4 - y / 100 + y / 400.

Definition days_in_month (year month : Z) : Z :=
  if (month =? 2) && is_leap year then 29 else index DAYS_IN_MONTH month.

Definition days_before_month (year month : Z) : Z :=
  index DAYS_BEFORE_MONTH month + (if (2 <? month) && is_leap year then 1 else 0).

Definition ymd2ord (year month day : Z) : Z :=
  days_before_year year + days_before_month year month + day.

Definition DI400Y : Z := 146097.
Definition DI100Y : Z := 36524.
Definition DI4Y : Z := 1461.

(** The last step of [_ord2ymd]: month and day of the day numbered [n]
    (from 0) of a year, by an estimate of the month that is corrected
    when it is one too far. *)
Definition month_day (leapyear : bool) (n : Z) : Z * Z :=
  let month := Z.shiftr (n + 50) 5 in
  let preceding :=
    index DAYS_BEFORE_MONTH month
    + (if (2 <? month) && leapyear then 1 else 0) in
  if n <? preceding then
    let month := month - 1 in
    let preceding :=
      preceding
      - (index DAYS_IN_MONTH month
         + (if (month =? 2) && leapyear then 1 else 0)) in
    (month, n - preceding + 1)
  else (month, n - preceding + 1).

(** The test that [month_day] inverts [days_before_month] at day [n]
    and lands on a day the month has. *)
Definition month_day_ok (leap : bool) (n : Z) : bool :=
  let '(m, d) := month_day leap n in
  (1 <=? m) && (m <=? 12) && (1 <=? d)
  && (d <=? (if (m =? 2) && leap then 29 else index DAYS_IN_MONTH m))
  && (index DAYS_BEFORE_MONTH m + (if (2 <? m) && leap then 1 else 0) + d
      =? n + 1).

Definition ord2ymd (ordinal : Z) : Z * Z * Z :=
  let n := ordinal - 1 in
  let n400 := n / DI400Y in
  let n := n mod DI400Y in
  let year := n400 * 400 + 1 in
  let n100 := n / DI100Y in
  let n := n mod DI100Y in
  let n4 := n / DI4Y in
  let n := n mod DI4Y in
  let n1 := n / 365 in
  let n := n mod 365 in
  let year := year + n100 * 100 + n4 * 4 + n1 in
  if (n1 =? 4) || (n100 =? 4) then (year - 1, 12, 31)
  else
    let leapyear := (n1 =? 3) && (negb (n4 =? 24) || (n100 =? 3)) in
    let '(month, d) := month_day leapyear n in
    (year, month, d).

Record datetime : Type := {
  year : Z; month : Z; day : Z;
  hour : Z; minute : Z; second : Z; microsecond : Z
}.

(** The constructor's range checks on a date at midnight. *)
Definition make_date (y m d : Z) : outcome datetime :=
  if (MINYEAR <=? y) && (y <=? MAXYEAR)
     && (1 <=? m) && (m <=? 12)
     && (1 <=? d) && (d <=? days_in_month y m)
  then Ok {| year := y; month := m; day := d;
             hour := 0; minute := 0; second := 0; microsecond := 0 |}
  else Raise ValueError.

Definition toordinal (t : datetime) : Z := ymd2ord (year t) (month t) (day t).

(** [t - timedelta(days=n)]: the days move the ordinal, the time of day
    is rebuilt from its seconds, and a result outside 1..MAXORDINAL
    raises. *)
Definition sub_days (t : datetime) (n : Z) : outcome datetime :=
  let days := toordinal t - n in
  let seconds := hour t * 3600 + minute t * 60 + second t in
  let hour' := seconds / 3600 in
  let rem := seconds mod 3600 in
  if (0 <? days) && (days <=? MAXORDINAL) then
    let '(y, m, d) := ord2ymd days in
    Ok {| year := y; month := m; day := d;
          hour := hour'; minute := rem / 60; second := rem mod 60;
          microsecond := microsecond t |}
  else Raise OverflowError.

(** *** strptime(text, "%Y-%m-%d")

    The directives stand for the patterns [\d\d\d\d],
    [1[0-2]|0[1-9]|[1-9]] and [3[01]|[12]\d|0[1-9]|[1-9]| [1-9]]; text
    left over after the day, or a day the month does not have, is a
    [ValueError].  A class such as [[0-2]] holds ASCII digits only, while
    [\d] is a decimal digit of any script, whose value [int] reads.  Texts
    are the bytes of their UTF-8 form here. *)

Definition digit_value (c : ascii) : option Z :=
  let n := Z.of_N (N_of_ascii c) in
  if (48 <=? n) && (n <=? 57) then Some (n - 48) else None.

Definition parser (A : Type) : Type := string -> option (A * string).

Definition p_digit (lo hi : Z) : parser Z := fun s =>
  match s with
  | String c rest =>
      match digit_value c with
      | Some v => if (lo <=? v) && (v <=? hi) then Some (v, rest) else None
      | None => None
      end
  | EmptyString => None
  end.

Definition p_char (c : ascii) : parser unit := fun s =>
  match s with
  | String c' rest => if Ascii.eqb c c' then Some (tt, rest) else None
  | EmptyString => None
  end.

(** Two digits in the given ranges, read as a number. *)
Definition p_two (lo1 hi1 lo2 hi2 : Z) : parser Z := fun s =>
  match p_digit lo1 hi1 s with
  | Some (a, rest) =>
      match p_digit lo2 hi2 rest with
      | Some (b, rest') => Some (10 * a + b, rest')
      | None => None
      end
  | None => None
  end.

(** Alternation: the leftmost alternative that matches. *)
Fixpoint p_alt {A : Type} (ps : list (parser A)) : parser A := fun s =>
  match ps with
  | [] => None
  | p :: ps' =>
      match p s with
      | Some r => Some r
      | None => p_alt ps' s
      end
  end.

(** Two digits, each read by its own parser, as a number. *)
Definition p_pair (p1 p2 : parser Z) : parser Z := fun s =>
  match p1 s with
  | Some (a, rest) =>
      match p2 rest with
      | Some (b, rest') => Some (10 * a + b, rest')
      | None => None
      end
  | None => None
  end.

Definition is_ascii (c : ascii) : bool := (N_of_ascii c <? 128)%N.

Section Strptime.

(** The decimal digits outside ASCII: [other_digit s] is the value of the
    digit character that starts [s], with the text after it, when [s]
    starts with one.  Which characters these are is the Unicode table of
    the Python build, a parameter of the model. *)
Variable other_digit : string -> option (Z * string).

(** [\d] *)
Definition p_decimal : parser Z := fun s =>
  match s with
  | String c rest =>
      match digit_value c with
      | Some v => Some (v, rest)
      | None =>
          if is_ascii c then None
          else
            match other_digit s with
            | Some (v, rest') =>
                if (0 <=? v) && (v <=? 9) then Some (v, rest') else None
            | None => None
            end
      end
  | EmptyString => None
  end.

Definition p_year : parser Z := fun s =>
  match p_pair p_decimal p_decimal s with
  | Some (hi, rest) =>
      match p_pair p_decimal p_decimal rest with
      | Some (lo, rest') => Some (100 * hi + lo, rest')
      | None => None
      end
  | None => None
  end.

Definition p_month : parser Z :=
  p_alt [p_two 1 1 0 2; p_two 0 0 1 9; p_digit 1 9].

Definition p_space_digit : parser Z := fun s =>
  match p_char " " s with
  | Some (_, rest) => p_digit 1 9 rest
  | None => None
  end.

Definition p_day : parser Z :=
  p_alt [p_two 3 3 0 1; p_pair (p_digit 1 2) p_decimal; p_two 0 0 1 9;
         p_digit 1 9; p_space_digit].

Definition strptime (text : option string) : outcome datetime :=
  match text with
  | None => Raise TypeError
  | Some s =>
      match p_year s with
      | Some (y, s1) =>
          match p_char "-" s1 with
          | Some (_, s2) =>
              match p_month s2 with
              | Some (m, s3) =>
                  match p_char "-" s3 with
                  | Some (_, s4) =>
                      match p_day s4 with
                      | Some (d, EmptyString) => make_date y m d
                      | _ => Raise ValueError
                      end
                  | None => Raise ValueError
                  end
              | None => Raise ValueError
              end
          | None => Raise ValueError
          end
      | None => Raise ValueError
      end
  end.

End Strptime.

(** *** A datetime bound against the TEXT column

    Compared with a Python [datetime], the [date] column gets the value
    as SQLAlchemy's SQLite dialect stores datetimes:
    [YYYY-MM-DD HH:MM:SS.ffffff], zero padded. *)

Definition digit_char (v : Z) : ascii := ascii_of_N (Z.to_N (48 + v mod 10)).

Fixpoint zero_padded (width : nat) (n : Z) : string :=
  match width with
  | O => EmptyString
  | S w => (zero_padded w (n / 10) ++ String (digit_char n) EmptyString)%string
  end.

Definition date_text (t : datetime) : string :=
  (zero_padded 4 (year t) ++ "-" ++ zero_padded 2 (month t) ++ "-"
   ++ zero_padded 2 (day t))%string.

Definition time_text (t : datetime) : string :=
  (zero_padded 2 (hour t) ++ ":" ++ zero_padded 2 (minute t) ++ ":"
   ++ zero_padded 2 (second t) ++ "." ++ zero_padded 6 (microsecond t))%string.

Definition bound_text (t : datetime) : string :=
  (date_text t ++ " " ++ time_text t)%string.

End Calendar.

(** ** The trailing window *)

(** [session.query(func.max(Measurement.date)).scalar()]: the greatest
    date text, [None] on an empty table. *)
Definition text_max (a b : string) : string := if Text.lt a b then b else a.

Definition latest_date (db : Dataset) : option string :=
  match map date db with
  | [] => None
  | d :: ds => Some (fold_left text_max ds d)
  end.

(** [strptime(latest_date, "%Y-%m-%d") - timedelta(days=365)] *)
Definition last_year (other_digit : string -> option (Z * string))
  (db : Dataset) : outcome Calendar.datetime :=
  t <- Calendar.strptime other_digit (latest_date db) ;;
  Calendar.sub_days t 365.

(** [.filter(Measurement.date >= last_year)]: the column is text and
    [last_year] a datetime, not a date string, so the comparison is
    between the stored date text and the text the datetime is bound as,
    which goes on after the day with a time of day.  (The filter of
    [calc_temps] is given a date string and compares with that.) *)
Definition in_window (since : Calendar.datetime) (r : Measurement) : bool :=
  Text.le (Calendar.bound_text since) (date r).

Definition window_rows (since : Calendar.datetime) (db : Dataset) : list Measurement :=
  filter (in_window since) db.

(** ** Python dicts and jsonify *)

(** [d[k] = v] on a dict kept in insertion order: a key already there
    keeps its place and takes the new value. *)
Fixpoint dict_set {V : Type} (k : string) (v : V) (d : list (string * V))
  : list (string * V) :=
  match d with
  | [] => [(k, v)]
  | (k', v') :: d' =>
      if String.eqb k' k then (k', v) :: d' else (k', v') :: dict_set k v d'
  end.

(** One assignment of [dict(zip(index, values))]. *)
Definition dict_step {V : Type} (d : list (string * V)) (kv : string * V)
  : list (string * V) :=
  dict_set (fst kv) (snd kv) d.

(** [dict(zip(index, values))] *)
Definition dict_of_pairs {V : Type} (pairs : list (string * V)) : list (string * V) :=
  fold_left dict_step pairs [].

Fixpoint dict_get {V : Type} (k : string) (d : list (string * V)) : option V :=
  match d with
  | [] => None
  | (k', v) :: d' => if String.eqb k' k then Some v else dict_get k d'
  end.

(** [jsonify] writes the keys of an object in sorted order. *)
Fixpoint insert_by_key {V : Type} (kv : string * V) (l : list (string * V))
  : list (string * V) :=
  match l with
  | [] => [kv]
  | kv' :: l' =>
      if Text.le (fst kv) (fst kv') then kv :: kv' :: l'
      else kv' :: insert_by_key kv l'
  end.

Definition sort_keys {V : Type} (d : list (string * V)) : list (string * V) :=
  fold_right insert_by_key [] d.

(** The order [sort_keys] sorts by. *)
Definition key_le {V : Type} (a b : string * V) : Prop :=
  Text.le (fst a) (fst b) = true.

(** ** /api/v1.0/precipitation *)

(** A row of the [Date]/[Precipitation] frame. *)
Definition prcp_record : Type := (string * option Q)%type.

(** The [Precipitation] column of the frame is a float column as soon as
    one fetched amount is a number; pandas then holds a missing amount as
    [nan], which [jsonify] writes [NaN].  A column of missing amounts only
    keeps them as [None], written [null]. *)
Definition numeric_column (records : list prcp_record) : bool :=
  existsb (fun kv => match snd kv with Some _ => true | None => false end)
          records.

Definition json_of_amount (numeric : bool) (v : option Q) : json :=
  match v with
  | Some q => JNum q
  | None => if numeric then JNaN else JNull
  end.

Section Precipitation.

Variable other_digit : string -> option (Z * string).

(** [DataFrame.sort_values("Date")].  pandas sorts with its default
    algorithm, which promises an ordered rearrangement of the rows and
    nothing about rows of equal date; the route is modelled over any
    such function. *)
Variable sort_values : list prcp_record -> list prcp_record.

Definition last_year_records (since : Calendar.datetime) (db : Dataset)
  : list prcp_record :=
  map (fun r => (date r, prcp r)) (window_rows since db).

(** The frame sorted by date, then indexed by date. *)
Definition prcp_df (since : Calendar.datetime) (db : Dataset) : list prcp_record :=
  sort_values (last_year_records since db).

(** [prcp_df.to_dict()]: column name -> (index -> value). *)
Definition to_dict (frame : list prcp_record)
  : list (string * list (string * option Q)) :=
  [("Precipitation", dict_of_pairs frame)].

Definition json_of_series (numeric : bool) (series : list (string * option Q))
  : json :=
  JObj (map (fun kv => (fst kv, json_of_amount numeric (snd kv)))
            (sort_keys series)).

Definition json_of_frame_dict (numeric : bool)
  (d : list (string * list (string * option Q))) : json :=
  JObj (map (fun kv => (fst kv, json_of_series numeric (snd kv))) (sort_keys d)).

Definition precipitation (db : Dataset) : outcome response :=
  since <- last_year other_digit db ;;
  Ok (Jsonify (json_of_frame_dict
                 (numeric_column (last_year_records since db))
                 (to_dict (prcp_df since db)))).

End Precipitation.

(** A sort that keeps rows of equal date in their order, to run the route
    with. *)
Fixpoint insert_record (r : prcp_record) (l : list prcp_record) : list prcp_record :=
  match l with
  | [] => [r]
  | r' :: l' =>
      if Text.lt (fst r) (fst r') then r :: r' :: l'
      else r' :: insert_record r l'
  end.

Definition stable_sort_values (l : list prcp_record) : list prcp_record :=
  fold_left (fun acc r => insert_record r acc) l [].

(** ** /api/v1.0/tobs *)

(** The view function [tobs]; the name [tobs] is the column's here.
    One-column rows come back as one-element tuples and are written as
    one-element arrays. *)
Definition tobs_last_year (since : Calendar.datetime) (db : Dataset)
  : list (option Q) :=
  map tobs (window_rows since db).

Definition tobs_route (other_digit : string -> option (Z * string))
  (db : Dataset) : outcome response :=
  since <- last_year other_digit db ;;
  Ok (Jsonify (JArr (map (fun t => JArr [json_of_number t])
                         (tobs_last_year since db)))).

(** ** /api/v1.0/stations *)

(** [SELECT DISTINCT station]: each value once, at its first occurrence. *)
Fixpoint distinct (seen : list string) (l : list string) : list string :=
  match l with
  | [] => []
  | s :: l' =>
      if existsb (String.eqb s) seen then distinct seen l'
      else s :: distinct (s :: seen) l'
  end.

Definition station_names (db : Dataset) : list string :=
  distinct [] (map station db).

Definition stations (db : Dataset) : response :=
  Jsonify (JArr (map (fun s => JArr [JStr s]) (station_names db))).

(** ** Sample data *)

Definition row (st d : string) (p t : option Q) : Measurement :=
  {| station := st; date := d; prcp := p; tobs := t |}.

Definition sample_db : Dataset :=
  [ row "USC00519397" "2016-08-23" (Some 0.1%Q) (Some 81%Q);
    row "USC00519397" "2016-08-24" (Some 0.2%Q) None;
    row "USC00519397" "2017-08-01" (Some 0.5%Q) (Some 77%Q);
    row "USC00519397" "2017-08-23" None (Some 82%Q);
    row "USC00513117" "2017-08-01" (Some 0.8%Q) (Some 76%Q);
    row "USC00513117" "2015-01-01" (Some 0.3%Q) (Some 60%Q) ].

(** ** Reading the date-indexed series *)

(** The value of the last row of [l] whose key is [k]. *)
Fixpoint last_value {V : Type} (k : string) (l : list (string * V)) : option V :=
  match l with
  | [] => None
  | (k', v) :: l' =>
      match last_value k l' with
      | Some x => Some x
      | None => if String.eqb k' k then Some v else None
      end
  end.

(** The rows of one date, in their order. *)
Definition rows_of {V : Type} (k : string) (l : list (string * V)) : list (string * V) :=
  filter (fun kv => String.eqb (fst kv) k) l.

(** A Python build that knows no digits but the ASCII ones, to run the
    window routes with. *)
Definition ascii_digits_only : string -> option (Z * string) := fun _ => None.

(** A table whose only date lies in year 1, where no day 365 days earlier
    exists. *)
Definition year_one_db : Dataset :=
  [ row "USC00519397" "0001-06-01" (Some 0.4%Q) (Some 70%Q) ].

(** The window start of the sample table. *)
Definition sample_since : Calendar.datetime :=
  {| Calendar.year := 2016; Calendar.month := 8; Calendar.day := 23;
     Calendar.hour := 0; Calendar.minute := 0; Calendar.second := 0;
     Calendar.microsecond := 0 |}.

(** A table in which every date occurs once. *)
Definition one_station_db : Dataset :=
  [ row "USC00519397" "2017-08-21" (Some 0.2%Q) (Some 79%Q);
    row "USC00519397" "2017-08-23" (Some 0.1%Q) (Some 81%Q);
    row "USC00519397" "2017-08-22" None (Some 80%Q) ].

(** ** The order on calendar dates *)

(** Year first, then month, then day. *)
Definition ymd_compare (a b : Calendar.datetime) : comparison :=
  match (Calendar.year a ?= Calendar.year b)%Z with
  | Eq =>
      match (Calendar.month a ?= Calendar.month b)%Z with
      | Eq => (Calendar.day a ?= Calendar.day b)%Z
      | o => o
      end
  | o => o
  end.

(** A date the [datetime] constructor accepts. *)
Definition valid_date (t : Calendar.datetime) : Prop :=
  (1 <= Calendar.year t <= 9999
   /\ 1 <= Calendar.month t <= 12
   /\ 1 <= Calendar.day t
      <= Calendar.days_in_month (Calendar.year t) (Calendar.month t))%Z.

(** The datetime of a day at midnight, as [strptime] builds it from a date
    text. *)
Definition midnight (y m d : Z) : Calendar.datetime :=
  {| Calendar.year := y; Calendar.month := m; Calendar.day := d;
     Calendar.hour := 0; Calendar.minute := 0; Calendar.second := 0;
     Calendar.microsecond := 0 |}.

(** * Properties *)

(** ** Calendar arithmetic *)

Module CalendarFacts.

Import Calendar.
Local Open Scope Z_scope.

(** The test passes on every day of a common year and of a leap year. *)
Lemma month_day_ok_all (leap : bool) :
  forallb (fun k => month_day_ok leap (Z.of_nat k))
          (seq 0 (if leap then 366 else 365)) = true.
Proof. destruct leap; vm_compute; reflexivity. Qed.

Lemma month_day_spec (leap : bool) (n : Z) :
  0 <= n < (if leap then 366 else 365) ->
  month_day_ok leap n = true.
Proof.
  intros H. pose proof (month_day_ok_all leap) as Hall.
  rewrite forallb_forall in Hall.
  specialize (Hall (Z.to_nat n)). rewrite Z2Nat.id in Hall by lia.
  apply Hall, in_seq. destruct leap; lia.
Qed.

Lemma year_decomposition (n400 n100 n4 n1 : Z) :
  0 <= n100 <= 3 -> 0 <= n4 <= 24 -> 0 <= n1 <= 3 ->
  let y := n400 * 400 + 1 + n100 * 100 + n4 * 4 + n1 in
  days_before_year y = n400 * 146097 + n100 * 36524 + n4 * 1461 + n1 * 365
  /\ is_leap y = (n1 =? 3) && (negb (n4 =? 24) || (n100 =? 3)).
Proof.
  intros H100 H4 H1 y. subst y. split.
  - unfold days_before_year. Z.div_mod_to_equations. lia.
  - unfold is_leap.
    destruct (Z.eqb_spec n1 3), (Z.eqb_spec n4 24), (Z.eqb_spec n100 3);
      cbn [andb orb negb];
      repeat match goal with
             | |- context [?a mod ?b =? 0] => destruct (Z.eqb_spec (a mod b) 0)
             end; cbn [andb orb negb]; try reflexivity;
      exfalso; Z.div_mod_to_equations; lia.
Qed.

(** [ord2ymd] inverts [ymd2ord] and returns a date that exists. *)
Lemma ymd2ord_ord2ymd (ordinal : Z) :
  1 <= ordinal ->
  let '(y, m, d) := ord2ymd ordinal in
  ymd2ord y m d = ordinal
  /\ 1 <= m <= 12 /\ 1 <= d <= days_in_month y m.
Proof.
  intros Hord. unfold ord2ymd, DI400Y, DI100Y, DI4Y. cbv zeta.
  set (n0 := ordinal - 1).
  set (n400 := n0 / 146097). set (r1 := n0 mod 146097).
  set (n100 := r1 / 36524). set (r2 := r1 mod 36524).
  set (n4 := r2 / 1461). set (r3 := r2 mod 1461).
  set (n1 := r3 / 365). set (r4 := r3 mod 365).
  assert (E0 : ordinal = 146097 * n400 + r1 + 1 /\ 0 <= r1 < 146097)
    by (subst n400 r1 n0; Z.div_mod_to_equations; lia).
  assert (E1 : r1 = 36524 * n100 + r2 /\ 0 <= r2 < 36524)
    by (subst n100 r2; Z.div_mod_to_equations; lia).
  assert (E2 : r2 = 1461 * n4 + r3 /\ 0 <= r3 < 1461)
    by (subst n4 r3; Z.div_mod_to_equations; lia).
  assert (E3 : r3 = 365 * n1 + r4 /\ 0 <= r4 < 365)
    by (subst n1 r4; Z.div_mod_to_equations; lia).
  clearbody n400 r1 n100 r2 n4 r3 n1 r4. clear n0.
  destruct ((n1 =? 4) || (n100 =? 4)) eqn:Especial.
  - assert (Hleap : is_leap (n400 * 400 + 1 + n100 * 100 + n4 * 4 + n1 - 1) = true).
    { unfold is_leap.
      repeat match goal with
             | |- context [?a mod ?b =? 0] => destruct (Z.eqb_spec (a mod b) 0)
             end; cbn [andb orb negb]; try reflexivity;
        exfalso; apply orb_true_iff in Especial;
        rewrite !Z.eqb_eq in Especial; Z.div_mod_to_equations; lia. }
    unfold ymd2ord, days_in_month, days_before_month. rewrite Hleap.
    change (index DAYS_BEFORE_MONTH 12) with 334.
    change (index DAYS_IN_MONTH 12) with 31.
    cbn [Z.ltb Z.eqb Z.compare Pos.compare Pos.compare_cont andb].
    unfold days_before_year.
    apply orb_true_iff in Especial. rewrite !Z.eqb_eq in Especial.
    repeat split; try lia; [|cbn; lia].
    Z.div_mod_to_equations. lia.
  - apply orb_false_iff in Especial. rewrite !Z.eqb_neq in Especial.
    assert (H100 : 0 <= n100 <= 3) by lia.
    assert (H4 : 0 <= n4 <= 24) by lia.
    assert (H1 : 0 <= n1 <= 3) by lia.
    destruct (year_decomposition n400 n100 n4 n1 H100 H4 H1) as [Hdays Hleap].
    set (leap := (n1 =? 3) && (negb (n4 =? 24) || (n100 =? 3))) in *.
    assert (Hmd : month_day_ok leap r4 = true)
      by (apply month_day_spec; destruct leap; lia).
    unfold month_day_ok in Hmd.
    destruct (month_day leap r4) as [m d].
    rewrite !andb_true_iff, !Z.leb_le, Z.eqb_eq in Hmd.
    destruct Hmd as [[[[Hm1 Hm2] Hd1] Hd2] Hsum].
    unfold ymd2ord, days_in_month, days_before_month.
    rewrite Hdays, Hleap. repeat split; try lia.
Qed.

Lemma toordinal_sub_days (t since : datetime) (n : Z) :
  sub_days t n = Ok since ->
  toordinal since = toordinal t - n
  /\ (1 <= month since <= 12
      /\ 1 <= day since <= days_in_month (year since) (month since))
  /\ microsecond since = microsecond t
  /\ hour since * 3600 + minute since * 60 + second since
     = hour t * 3600 + minute t * 60 + second t.
Proof.
  unfold sub_days.
  destruct ((0 <? toordinal t - n) && (toordinal t - n <=? MAXORDINAL)) eqn:E;
    [|discriminate].
  apply andb_true_iff in E as [Hpos _]. apply Z.ltb_lt in Hpos.
  pose proof (ymd2ord_ord2ymd (toordinal t - n) ltac:(lia)) as Hinv.
  destruct (ord2ymd (toordinal t - n)) as [[y m] d].
  intros H. injection H as <-. unfold toordinal at 1.
  cbn [year month day hour minute second microsecond].
  destruct Hinv as (Hord & Hm & Hd).
  split; [exact Hord|]. split; [now split|]. split; [reflexivity|].
  Z.div_mod_to_equations. lia.
Qed.

End CalendarFacts.

Section Properties.

(** The properties hold whatever SQLite's floating-point [avg] returns and
    whatever decimal digits outside ASCII [\d] reads. *)
Variable sqlite_avg : list Q -> sql_real.
Variable other_digit : string -> option (Z * string).

#[local] Set Default Proof Using "Type".

(** Decision procedures may pick up the section's variables; a proof that
    does not need them drops them first. *)
Ltac forget_parameters := try clear sqlite_avg; try clear other_digit.

(** ** Text *)

Lemma append_assoc (a b c : string) : (a ++ b) ++ c = a ++ (b ++ c).
Proof.
  induction a as [|x a IH]; simpl; [reflexivity | now rewrite IH].
Qed.

Lemma contains_intro (pre sub post s : string) :
  s = pre ++ sub ++ post -> Text.contains sub s.
Proof. intros ->. now exists pre, post. Qed.

Lemma compare_refl (s : string) : String.compare s s = Eq.
Proof.
  induction s as [|c s IH]; simpl; [reflexivity|].
  unfold Ascii.compare. now rewrite N.compare_refl.
Qed.

Lemma le_refl (s : string) : Text.le s s = true.
Proof. unfold Text.le, String.leb. now rewrite compare_refl. Qed.

Lemma gt_asym (a b : string) : Text.gt a b = true -> Text.gt b a = false.
Proof.
  unfold Text.gt, String.ltb. rewrite (String.compare_antisym a b).
  destruct (String.compare b a); simpl; congruence.
Qed.

(** ** The date check *)

Lemma digit_matches (c : ascii) :
  Regex.atom_matches Regex.digit c = true <-> is_digit c.
Proof.
  unfold Regex.atom_matches, Regex.digit, is_digit, Ascii.leb, Ascii.compare.
  change (N_of_ascii "0") with 48%N. change (N_of_ascii "9") with 57%N.
  rewrite andb_true_iff.
  destruct (N.compare_spec 48 (N_of_ascii c)), (N.compare_spec (N_of_ascii c) 57);
    split; intros [? ?]; try discriminate; try lia; split; reflexivity.
Qed.

Lemma eat_succ (a : Regex.atom) (n : nat) (s r : string) :
  Regex.eat a (S n) s = Some r ->
  exists c s', s = String c s' /\ Regex.atom_matches a c = true
               /\ Regex.eat a n s' = Some r.
Proof.
  simpl. destruct s as [|c s']; [discriminate|].
  destruct (Regex.atom_matches a c) eqn:E; [|discriminate].
  intros H. now exists c, s'.
Qed.

Lemma eat_hyphen (s r : string) :
  Regex.eat (Regex.Lit "-") 1 s = Some r -> s = String "-" r.
Proof.
  intros H. apply eat_succ in H as (c & s' & -> & Hc & H).
  cbn [Regex.eat] in H. injection H as ->.
  cbn [Regex.atom_matches] in Hc.
  apply Ascii.eqb_eq in Hc. now subst.
Qed.

Ltac eat_digit H c Hc :=
  let s' := fresh "s" in
  apply eat_succ in H as (c & s' & -> & Hc & H);
  apply digit_matches in Hc.

Lemma date_format_ok_iff (s : string) :
  date_format_ok s = true <-> has_date_prefix s.
Proof.
  unfold date_format_ok, Regex.date_pattern, has_date_prefix. split.
  - cbn [Regex.re_match Regex.eat_item].
    destruct (Regex.eat Regex.digit 4 s) as [r1|] eqn:E1; [|discriminate].
    destruct (Regex.eat (Regex.Lit "-") 1 r1) as [r2|] eqn:E2; [|discriminate].
    destruct (Regex.eat Regex.digit 2 r2) as [r3|] eqn:E3; [|discriminate].
    destruct (Regex.eat (Regex.Lit "-") 1 r3) as [r4|] eqn:E4; [|discriminate].
    destruct (Regex.eat Regex.digit 2 r4) as [r5|] eqn:E5; [|discriminate].
    intros _.
    eat_digit E1 y1 Hy1. eat_digit E1 y2 Hy2.
    eat_digit E1 y3 Hy3. eat_digit E1 y4 Hy4.
    simpl in E1. injection E1 as <-.
    apply eat_hyphen in E2 as ->.
    eat_digit E3 m1 Hm1. eat_digit E3 m2 Hm2.
    simpl in E3. injection E3 as <-.
    apply eat_hyphen in E4 as ->.
    eat_digit E5 d1 Hd1. eat_digit E5 d2 Hd2.
    simpl in E5. injection E5 as <-.
    do 9 eexists. split; [|reflexivity].
    repeat (apply Forall_cons; [assumption|]). apply Forall_nil.
  - intros (y1 & y2 & y3 & y4 & m1 & m2 & d1 & d2 & rest & Hd & ->).
    repeat match goal with
           | H : Forall _ (_ :: _) |- _ => inversion H; subst; clear H
           end.
    repeat match goal with
           | H : is_digit _ |- _ => apply digit_matches in H
           end.
    repeat (cbn [Regex.re_match Regex.eat_item Regex.eat];
            match goal with
            | H : Regex.atom_matches _ _ = true |- _ => rewrite H; clear H
            | |- context [Regex.atom_matches (Regex.Lit ?c) ?c] =>
                change (Regex.atom_matches (Regex.Lit c) c) with true
            end).
    reflexivity.
Qed.

Lemma date_format_ok_false (s : string) :
  ~ has_date_prefix s -> date_format_ok s = false.
Proof.
  intros H. destruct (date_format_ok s) eqn:E; [|reflexivity].
  now apply date_format_ok_iff in E.
Qed.

Lemma invalid_start_names (start : string) :
  Text.contains (Text.quoted start) (invalid_start_message start)
  /\ Text.contains "yyyy-mm-dd" (invalid_start_message start).
Proof.
  unfold invalid_start_message, Text.quoted, twelve_spaces. split.
  - eapply (contains_intro "Your search of ").
    rewrite !append_assoc. reflexivity.
  - eapply (contains_intro
              ("Your search of '" ++ start
               ++ "' is not in the correct format.<br/>            Please, search for a start date in the form ")
              _ " (year-month-day).").
    rewrite !append_assoc. reflexivity.
Qed.

Lemma invalid_range_names (start end_ : string) :
  Text.contains (Text.quoted start) (invalid_range_message start end_)
  /\ Text.contains (Text.quoted end_) (invalid_range_message start end_)
  /\ Text.contains "yyyy-mm-dd" (invalid_range_message start end_).
Proof.
  unfold invalid_range_message, Text.quoted, twelve_spaces. repeat split.
  - eapply (contains_intro "Your search beginning with ").
    rewrite !append_assoc. reflexivity.
  - eapply (contains_intro
              ("Your search beginning with '" ++ start ++ "' and ending with ")).
    rewrite !append_assoc. reflexivity.
  - eapply (contains_intro
              ("Your search beginning with '" ++ start ++ "' and ending with '"
               ++ end_
               ++ "'            is not in the correct format.<br/>Please, verify that both start and end dates            are in the form ")
              _ " (year-month-day).").
    rewrite !append_assoc. reflexivity.
Qed.

(** ** Aggregates *)

Lemma non_null_In (l : list (option Q)) (q : Q) :
  In q (non_null l) <-> In (Some q) l.
Proof.
  induction l as [|[x|] l IH]; simpl.
  - tauto.
  - rewrite IH. split; intros [H|H]; auto; left; congruence.
  - rewrite IH. split; [auto | intros [H|H]; [discriminate | exact H]].
Qed.

Lemma non_null_nil (l : list (option Q)) :
  non_null l = [] <-> forall v, In v l -> v = None.
Proof.
  split.
  - intros H [q|] Hin; [|reflexivity].
    apply non_null_In in Hin. rewrite H in Hin. destruct Hin.
  - intros H. destruct (non_null l) as [|q qs] eqn:E; [reflexivity|].
    assert (Hq : In q (non_null l)) by (rewrite E; now left).
    apply non_null_In, H in Hq. discriminate.
Qed.

Lemma Qmin_cases (x y : Q) : Qmin x y = x \/ Qmin x y = y.
Proof.
  unfold Qmin, GenericMinMax.gmin. destruct (x ?= y)%Q; auto.
Qed.

Lemma Qmax_cases (x y : Q) : Qmax x y = x \/ Qmax x y = y.
Proof.
  unfold Qmax, GenericMinMax.gmax. destruct (x ?= y)%Q; auto.
Qed.

Lemma fold_min_spec (qs : list Q) (q : Q) :
  In (fold_left Qmin qs q) (q :: qs)
  /\ forall v, In v (q :: qs) -> (fold_left Qmin qs q <= v)%Q.
Proof.
  revert q. induction qs as [|x qs IH]; intros q; simpl.
  - split; [now left|]. intros v [<-|[]]. apply Qle_refl.
  - destruct (IH (Qmin q x)) as [Hin Hle]. split.
    + destruct Hin as [Hin|Hin]; [|now right; right].
      rewrite <- Hin. destruct (Qmin_cases q x) as [->| ->]; auto.
    + intros v [<-|[<-|Hv]].
      * eapply Qle_trans; [apply Hle; now left | apply Q.le_min_l].
      * eapply Qle_trans; [apply Hle; now left | apply Q.le_min_r].
      * apply Hle. now right.
Qed.

Lemma fold_max_spec (qs : list Q) (q : Q) :
  In (fold_left Qmax qs q) (q :: qs)
  /\ forall v, In v (q :: qs) -> (v <= fold_left Qmax qs q)%Q.
Proof.
  revert q. induction qs as [|x qs IH]; intros q; simpl.
  - split; [now left|]. intros v [<-|[]]. apply Qle_refl.
  - destruct (IH (Qmax q x)) as [Hin Hle]. split.
    + destruct Hin as [Hin|Hin]; [|now right; right].
      rewrite <- Hin. destruct (Qmax_cases q x) as [->| ->]; auto.
    + intros v [<-|[<-|Hv]].
      * eapply Qle_trans; [apply Q.le_max_l | apply Hle; now left].
      * eapply Qle_trans; [apply Q.le_max_r | apply Hle; now left].
      * apply Hle. now right.
Qed.

Lemma count_of_cons (v : Q) (l : list Q) : (count_of (v :: l) == count_of l + 1)%Q.
Proof.
  unfold count_of. cbn [List.length]. rewrite Nat2Z.inj_succ.
  unfold Z.succ. now rewrite inject_Z_plus.
Qed.

Lemma count_of_pos (v : Q) (l : list Q) : (0 < count_of (v :: l))%Q.
Proof.
  unfold count_of. change 0%Q with (inject_Z 0). rewrite <- Zlt_Qlt.
  cbn [List.length]. lia.
Qed.

Lemma Qsum_lower (lo : Q) (l : list Q) :
  (forall v, In v l -> (lo <= v)%Q) -> (count_of l * lo <= Qsum l)%Q.
Proof.
  induction l as [|v l IH]; intros H.
  - change (0 * lo <= 0)%Q. lra.
  - rewrite count_of_cons. cbn [Qsum fold_right].
    assert (lo <= v)%Q by (apply H; now left).
    assert (count_of l * lo <= Qsum l)%Q by (apply IH; intros; apply H; now right).
    unfold Qsum in *. lra.
Qed.

Lemma Qsum_upper (hi : Q) (l : list Q) :
  (forall v, In v l -> (v <= hi)%Q) -> (Qsum l <= count_of l * hi)%Q.
Proof.
  induction l as [|v l IH]; intros H.
  - change (0 <= 0 * hi)%Q. lra.
  - rewrite count_of_cons. cbn [Qsum fold_right].
    assert (v <= hi)%Q by (apply H; now left).
    assert (Qsum l <= count_of l * hi)%Q by (apply IH; intros; apply H; now right).
    unfold Qsum in *. lra.
Qed.

(** In exact arithmetic the mean of a non-empty list lies between its
    least and greatest elements; the floating-point [avg] does not promise
    it. *)
Lemma exact_avg_between (v : Q) (l : list Q) (lo hi : Q) :
  (forall x, In x (v :: l) -> (lo <= x <= hi)%Q) ->
  exists m, exact_avg (v :: l) = Finite m /\ (lo <= m <= hi)%Q.
Proof.
  intros H. exists (Qsum (v :: l) / count_of (v :: l))%Q.
  split; [reflexivity|].
  pose proof (count_of_pos v l) as Hpos.
  pose proof (Qsum_lower lo (v :: l) (fun x Hx => proj1 (H x Hx))) as Hlo.
  pose proof (Qsum_upper hi (v :: l) (fun x Hx => proj2 (H x Hx))) as Hhi.
  split.
  - apply Qle_shift_div_l; [exact Hpos|]. now rewrite Qmult_comm.
  - apply Qle_shift_div_r; [exact Hpos|]. now rewrite Qmult_comm.
Qed.

(** What the three aggregates of a non-empty selection are. *)
Lemma aggregates_spec (l : list (option Q)) (q : Q) (qs : list Q) :
  non_null l = q :: qs ->
  exists lo mean hi,
    func_min l = Some lo /\ func_avg sqlite_avg l = Some mean
    /\ func_max l = Some hi
    /\ In lo (non_null l) /\ In hi (non_null l)
    /\ (forall v, In v (non_null l) -> (lo <= v <= hi)%Q)
    /\ mean = sqlite_avg (non_null l)
    /\ (lo <= hi)%Q.
Proof.
  intros E. unfold func_min, func_avg, func_max. rewrite E.
  destruct (fold_min_spec qs q) as [Hmin_in Hmin].
  destruct (fold_max_spec qs q) as [Hmax_in Hmax].
  do 3 eexists. repeat split; try reflexivity; auto.
Qed.

Lemma calc_temps_cases (db : Dataset) (s : string) (e : option string) :
  let selected := map tobs (filter (in_range s e) db) in
  (non_null selected = [] /\ calc_temps sqlite_avg db s e = [])
  \/ (exists q qs, non_null selected = q :: qs
        /\ calc_temps sqlite_avg db s e
           = [(func_min selected, func_avg sqlite_avg selected, func_max selected)]).
Proof.
  intros selected. unfold calc_temps. fold selected.
  unfold func_min, func_avg, func_max.
  destruct (non_null selected) as [|q qs]; [left | right]; eauto.
Qed.

Lemma selected_all_null (db : Dataset) (s : string) (e : option string) :
  non_null (map tobs (filter (in_range s e) db)) = []
  <-> forall r, In r db -> in_range s e r = true -> tobs r = None.
Proof.
  rewrite non_null_nil. split.
  - intros H r Hin Hr. apply H, in_map, filter_In. now split.
  - intros H v Hv. apply in_map_iff in Hv as (r & <- & Hr).
    apply filter_In in Hr as [? ?]. now apply H.
Qed.

(** ** calc_temps and the temperature routes *)

(** C1 (as amended).  [calc_temps] returns the empty list exactly when no
    row in the date range has a temperature reading (rows in range whose
    [tobs] is null do not count); otherwise it returns one row holding the
    least reading, SQLite's average and the greatest reading of the
    non-null [tobs] in range, with min <= max.  The average is the
    floating-point one, for which min <= avg <= max is not promised. *)
Theorem calc_temps_empty_iff_no_reading
  (db : Dataset) (start_date : string) (end_date : option string) :
  let readings := non_null (map tobs (filter (in_range start_date end_date) db)) in
  (calc_temps sqlite_avg db start_date end_date = []
   <-> forall r, In r db -> in_range start_date end_date r = true -> tobs r = None)
  /\ (calc_temps sqlite_avg db start_date end_date = []
      \/ exists lo hi,
          calc_temps sqlite_avg db start_date end_date
          = [(Some lo, Some (sqlite_avg readings), Some hi)]
          /\ In lo readings /\ In hi readings
          /\ (forall v, In v readings -> (lo <= v <= hi)%Q)
          /\ (lo <= hi)%Q).
Proof.
  intros readings. subst readings.
  destruct (calc_temps_cases db start_date end_date) as [[E ->]|(q & qs & E & ->)].
  - split; [|now left]. split; [intros _ | reflexivity].
    now apply selected_all_null.
  - split.
    + split; [discriminate|]. intros H. apply selected_all_null in H.
      rewrite H in E. discriminate.
    + right. destruct (aggregates_spec _ q qs E)
        as (lo & mean & hi & -> & -> & -> & Hlo & Hhi & Hall & -> & Hle).
      now exists lo, hi.
Qed.

(** C2 (as amended).  A path parameter passes the check exactly when it
    starts with four digits, a hyphen, two digits, a hyphen and two digits.
    A start that fails makes the one-date route answer with a text that
    quotes the start and gives the form yyyy-mm-dd; when the start or the
    end fails, the two-date route answers with one text that quotes both
    values as given, whichever of them failed, and gives the form
    yyyy-mm-dd. *)
Theorem date_check_and_messages (db : Dataset) (start end_ : string) :
  (date_format_ok start = true <-> has_date_prefix start)
  /\ (~ has_date_prefix start ->
      calc_temps_start sqlite_avg db start = Text (invalid_start_message start)
      /\ Text.contains (Text.quoted start) (invalid_start_message start)
      /\ Text.contains "yyyy-mm-dd" (invalid_start_message start))
  /\ (~ has_date_prefix start \/ ~ has_date_prefix end_ ->
      calc_temps_start_end sqlite_avg db start end_ = Text (invalid_range_message start end_)
      /\ Text.contains (Text.quoted start) (invalid_range_message start end_)
      /\ Text.contains (Text.quoted end_) (invalid_range_message start end_)
      /\ Text.contains "yyyy-mm-dd" (invalid_range_message start end_)).
Proof.
  split; [apply date_format_ok_iff|]. split.
  - intros H. apply date_format_ok_false in H.
    split; [|apply invalid_start_names].
    unfold calc_temps_start. now rewrite H.
  - intros H. split; [|apply invalid_range_names].
    unfold calc_temps_start_end.
    destruct H as [H|H]; apply date_format_ok_false in H; rewrite H;
      [reflexivity | now rewrite orb_true_r].
Qed.

Lemma ordered_range_reversed (a b : string) :
  Text.gt a b = true -> ordered_range a b = (b, a) /\ ordered_range b a = (b, a).
Proof.
  intros H. unfold ordered_range. now rewrite H, (gt_asym _ _ H).
Qed.

(** C3 (as amended).  For valid date texts a > b the two-date route calls
    [calc_temps] with start b and end a, whichever order they were given
    in; so the reversed query and the ascending query return the same
    result whenever the range matches a reading.  When nothing matches,
    each returns the no-match text made from the dates in the order it
    was given them. *)
Theorem reversed_range_same_aggregation (db : Dataset) (a b : string) :
  date_format_ok a = true -> date_format_ok b = true -> Text.gt a b = true ->
  ordered_range a b = (b, a)
  /\ ordered_range b a = (b, a)
  /\ (calc_temps sqlite_avg db b (Some a) <> [] ->
      calc_temps_start_end sqlite_avg db a b
      = calc_temps_start_end sqlite_avg db b a)
  /\ (forall payload,
        calc_temps_start_end sqlite_avg db a b = Jsonify payload
        <-> calc_temps_start_end sqlite_avg db b a = Jsonify payload)
  /\ (calc_temps sqlite_avg db b (Some a) = [] ->
      calc_temps_start_end sqlite_avg db a b = Text (no_match_range_message a b)
      /\ calc_temps_start_end sqlite_avg db b a
         = Text (no_match_range_message b a)).
Proof.
  intros Ha Hb Hgt.
  destruct (ordered_range_reversed a b Hgt) as [E1 E2].
  split; [exact E1|]. split; [exact E2|].
  unfold calc_temps_start_end. rewrite Ha, Hb, E1, E2. cbn [negb orb].
  split; [|split].
  - destruct (calc_temps sqlite_avg db b (Some a)); [congruence | reflexivity].
  - intros payload. destruct (calc_temps sqlite_avg db b (Some a)); [|reflexivity].
    split; discriminate.
  - intros ->. now split.
Qed.

Lemma calc_temps_with_reading (db : Dataset) (s : string) (e : option string) :
  (exists r, In r db /\ in_range s e r = true /\ tobs r <> None) ->
  exists lo mean hi, calc_temps sqlite_avg db s e = [(Some lo, Some mean, Some hi)].
Proof.
  intros (r & Hin & Hr & Ht).
  destruct (calc_temps_cases db s e) as [[E _]|(q & qs & E & ->)].
  - pose proof (proj1 (selected_all_null db s e) E) as Hnull.
    now destruct (Ht (Hnull r Hin Hr)).
  - destruct (aggregates_spec _ q qs E)
      as (lo & mean & hi & -> & -> & -> & _). now exists lo, mean, hi.
Qed.

(** C7 (as amended).  For valid dates with at least one row in range that
    has a temperature reading, the payload of either temperature route is
    a JSON list holding one row: [[min, avg, max]]. *)
Theorem temperature_payload_one_row (db : Dataset) (start end_ : string) :
  date_format_ok start = true ->
  ((exists r, In r db /\ in_range start None r = true /\ tobs r <> None) ->
   exists lo mean hi,
     calc_temps sqlite_avg db start None = [(Some lo, Some mean, Some hi)]
     /\ calc_temps_start sqlite_avg db start
        = Jsonify (JArr [JArr [JNum lo; json_of_real mean; JNum hi]]))
  /\ (date_format_ok end_ = true ->
      forall first last, ordered_range start end_ = (first, last) ->
      (exists r, In r db /\ in_range first (Some last) r = true /\ tobs r <> None) ->
      exists lo mean hi,
        calc_temps sqlite_avg db first (Some last) = [(Some lo, Some mean, Some hi)]
        /\ calc_temps_start_end sqlite_avg db start end_
           = Jsonify (JArr [JArr [JNum lo; json_of_real mean; JNum hi]])).
Proof.
  intros Hs. split.
  - intros H. apply calc_temps_with_reading in H as (lo & mean & hi & E).
    exists lo, mean, hi. split; [exact E|].
    unfold calc_temps_start. now rewrite Hs, E.
  - intros He first last Ho H.
    apply calc_temps_with_reading in H as (lo & mean & hi & E).
    exists lo, mean, hi. split; [exact E|].
    unfold calc_temps_start_end. now rewrite Hs, He, Ho, E.
Qed.

(** ** The order on text *)

Lemma ascii_compare_eq (a b : ascii) : Ascii.compare a b = Eq <-> a = b.
Proof.
  split; [apply Ascii.compare_eq_iff|].
  intros ->. unfold Ascii.compare. apply N.compare_refl.
Qed.

Lemma compare_lt_trans (a b c : string) :
  String.compare a b = Lt -> String.compare b c = Lt -> String.compare a c = Lt.
Proof.
  revert b c. induction a as [|x a IH]; intros [|y b] [|z c]; simpl;
    try discriminate; try reflexivity.
  unfold Ascii.compare.
  destruct (N.compare_spec (N_of_ascii x) (N_of_ascii y)) as [Exy|Lxy|Gxy];
    try discriminate;
    destruct (N.compare_spec (N_of_ascii y) (N_of_ascii z)) as [Eyz|Lyz|Gyz];
    try discriminate; intros H1 H2.
  - rewrite Exy, Eyz, N.compare_refl. now apply IH with b.
  - rewrite Exy. now apply N.compare_lt_iff in Lyz as ->.
  - rewrite <- Eyz. now apply N.compare_lt_iff in Lxy as ->.
  - assert (L : (N_of_ascii x < N_of_ascii z)%N) by lia.
    now apply N.compare_lt_iff in L as ->.
Qed.

Lemma le_cases (a b : string) : Text.le a b = true <-> a = b \/ Text.lt a b = true.
Proof. forget_parameters.
  unfold Text.le, Text.lt, String.leb, String.ltb.
  destruct (String.compare a b) eqn:E.
  - apply String.compare_eq_iff in E. tauto.
  - tauto.
  - split; [discriminate|]. intros [->|H]; [|discriminate].
    now rewrite compare_refl in E.
Qed.

Lemma lt_trans (a b c : string) :
  Text.lt a b = true -> Text.lt b c = true -> Text.lt a c = true.
Proof.
  unfold Text.lt, String.ltb.
  destruct (String.compare a b) eqn:E1; try discriminate.
  destruct (String.compare b c) eqn:E2; try discriminate.
  now rewrite (compare_lt_trans a b c E1 E2).
Qed.

Lemma le_trans (a b c : string) :
  Text.le a b = true -> Text.le b c = true -> Text.le a c = true.
Proof.
  rewrite !le_cases. intros [->|H1] [->|H2]; auto.
  right. now apply lt_trans with b.
Qed.

Lemma lt_irrefl (a : string) : Text.lt a a = false.
Proof. unfold Text.lt, String.ltb. now rewrite compare_refl. Qed.

Lemma not_lt_le (a b : string) : Text.lt a b = false -> Text.le b a = true.
Proof.
  unfold Text.lt, Text.le, String.ltb, String.leb.
  rewrite (String.compare_antisym b a).
  destruct (String.compare a b); simpl; congruence.
Qed.

Lemma not_le_lt (a b : string) : Text.le a b = false -> Text.lt b a = true.
Proof.
  unfold Text.lt, Text.le, String.ltb, String.leb.
  rewrite (String.compare_antisym b a).
  destruct (String.compare a b); simpl; congruence.
Qed.

Lemma lt_le (a b : string) : Text.lt a b = true -> Text.le a b = true.
Proof. intros H. apply le_cases. now right. Qed.

(** A text is greater than any proper prefix of itself. *)
Lemma proper_prefix_lt (a : string) (c : ascii) (s : string) :
  Text.le (a ++ String c s) a = false.
Proof.
  unfold Text.le, String.leb.
  induction a as [|x a IH]; simpl; [reflexivity|].
  unfold Ascii.compare. rewrite N.compare_refl. exact IH.
Qed.

(** ** The latest date *)

Lemma fold_text_max (ds : list string) (d : string) :
  In (fold_left text_max ds d) (d :: ds)
  /\ forall x, In x (d :: ds) -> Text.le x (fold_left text_max ds d) = true.
Proof.
  revert d. induction ds as [|y ds IH]; intros d; simpl.
  - split; [now left|]. intros x [<-|[]]. apply le_refl.
  - destruct (IH (text_max d y)) as [Hin Hle]. split.
    + destruct Hin as [Hin|Hin]; [|now right; right].
      rewrite <- Hin. unfold text_max. destruct (Text.lt d y); auto.
    + assert (Hd : Text.le d (text_max d y) = true).
      { unfold text_max. destruct (Text.lt d y) eqn:E;
          [now apply lt_le | apply le_refl]. }
      assert (Hy : Text.le y (text_max d y) = true).
      { unfold text_max. destruct (Text.lt d y) eqn:E;
          [apply le_refl | now apply not_lt_le]. }
      intros x [<-|[<-|Hx]].
      * eapply le_trans; [exact Hd | apply Hle; now left].
      * eapply le_trans; [exact Hy | apply Hle; now left].
      * apply Hle. now right.
Qed.

Lemma latest_date_max (db : Dataset) :
  db <> [] ->
  exists latest,
    latest_date db = Some latest
    /\ In latest (map date db)
    /\ forall r, In r db -> Text.le (date r) latest = true.
Proof.
  intros Hne. unfold latest_date.
  destruct db as [|r0 db]; [congruence|]. cbn [map].
  destruct (fold_text_max (map date db) (date r0)) as [Hin Hle].
  eexists. split; [reflexivity|]. split; [exact Hin|].
  intros r Hr. apply Hle. change (In (date r) (map date (r0 :: db))).
  now apply in_map.
Qed.

(** ** The window start *)

Lemma make_date_fields (y m d : Z) (t : Calendar.datetime) :
  Calendar.make_date y m d = Ok t ->
  t = {| Calendar.year := y; Calendar.month := m; Calendar.day := d;
         Calendar.hour := 0; Calendar.minute := 0; Calendar.second := 0;
         Calendar.microsecond := 0 |}
  /\ (1 <= y <= 9999 /\ 1 <= m <= 12 /\ 1 <= d <= Calendar.days_in_month y m)%Z.
Proof.
  unfold Calendar.make_date, Calendar.MINYEAR, Calendar.MAXYEAR.
  destruct (_ && _) eqn:E; [|discriminate].
  intros H. injection H as <-.
  rewrite !andb_true_iff, !Z.leb_le in E. split; [reflexivity | lia].
Qed.

Lemma strptime_date (text : option string) (t : Calendar.datetime) :
  Calendar.strptime other_digit text = Ok t ->
  exists y m d, Calendar.make_date y m d = Ok t.
Proof.
  unfold Calendar.strptime.
  repeat match goal with
         | |- context [match ?x with _ => _ end] =>
             destruct x; try discriminate
         end.
  eauto.
Qed.

Lemma month_tables (m : Z) :
  (1 <= m <= 12)%Z ->
  (0 <= Calendar.index Calendar.DAYS_BEFORE_MONTH m <= 334
   /\ 28 <= Calendar.index Calendar.DAYS_IN_MONTH m <= 31)%Z.
Proof.
  intros H.
  assert (Hm : In m [1; 2; 3; 4; 5; 6; 7; 8; 9; 10; 11; 12]%Z) by (simpl; lia).
  cbn [In] in Hm.
  repeat (destruct Hm as [<-|Hm]; [vm_compute; intuition discriminate|]).
  destruct Hm.
Qed.

(** A date the constructor accepts has an ordinal in 1..MAXORDINAL. *)
Lemma toordinal_range (y m d : Z) (t : Calendar.datetime) :
  Calendar.make_date y m d = Ok t ->
  (1 <= Calendar.toordinal t <= Calendar.MAXORDINAL)%Z.
Proof.
  intros H. apply make_date_fields in H as [-> (Hy & Hm & Hd)].
  unfold Calendar.toordinal, Calendar.ymd2ord, Calendar.days_before_year,
    Calendar.days_before_month, Calendar.days_in_month, Calendar.MAXORDINAL in *.
  cbn [Calendar.year Calendar.month Calendar.day].
  destruct (month_tables m Hm) as [Hb Hi].
  set (before := Calendar.index Calendar.DAYS_BEFORE_MONTH m) in *.
  set (len := Calendar.index Calendar.DAYS_IN_MONTH m) in *.
  clearbody before len.
  destruct (Calendar.is_leap y) eqn:L.
  - assert (Hy4 : (y mod 4 = 0)%Z).
    { unfold Calendar.is_leap in L. apply andb_true_iff in L as [L _].
      now apply Z.eqb_eq in L. }
    destruct (m =? 2)%Z, (2 <? m)%Z; cbn [andb] in *;
      Z.div_mod_to_equations; lia.
  - rewrite !andb_false_r in *. Z.div_mod_to_equations. lia.
Qed.

Lemma sub_days_midnight (y m d n : Z) (t : Calendar.datetime) :
  Calendar.make_date y m d = Ok t ->
  (0 <= n < Calendar.toordinal t)%Z ->
  exists since,
    Calendar.sub_days t n = Ok since
    /\ Calendar.toordinal since = (Calendar.toordinal t - n)%Z
    /\ (1 <= Calendar.month since <= 12
        /\ 1 <= Calendar.day since
           <= Calendar.days_in_month (Calendar.year since) (Calendar.month since))%Z
    /\ Calendar.hour since = 0%Z /\ Calendar.minute since = 0%Z
    /\ Calendar.second since = 0%Z /\ Calendar.microsecond since = 0%Z.
Proof.
  intros Hmk Hn. pose proof (toordinal_range _ _ _ _ Hmk) as Hrange.
  apply make_date_fields in Hmk as [Ht _].
  destruct (Calendar.sub_days t n) as [since|e] eqn:E.
  - exists since. split; [reflexivity|].
    destruct (CalendarFacts.toordinal_sub_days _ _ _ E) as (Ho & Hvalid & _).
    split; [exact Ho|]. split; [exact Hvalid|].
    unfold Calendar.sub_days in E. subst t.
    cbn [Calendar.hour Calendar.minute Calendar.second Calendar.microsecond] in E.
    destruct (_ && _) in E; [|discriminate].
    destruct (Calendar.ord2ymd _) as [[y' m'] d'] in E.
    injection E as <-. now cbn.
  - exfalso. unfold Calendar.sub_days in E.
    replace ((0 <? Calendar.toordinal t - n)%Z
             && (Calendar.toordinal t - n <=? Calendar.MAXORDINAL)%Z)
      with true in E.
    + destruct (Calendar.ord2ymd _) as [[y' m'] d'] in E. discriminate.
    + symmetry. apply andb_true_iff. split; [apply Z.ltb_lt | apply Z.leb_le]; lia.
Qed.

(** The example of the specification: 2017-08-23 gives 2016-08-23. *)
Lemma last_year_of_sample :
  latest_date sample_db = Some "2017-08-23"
  /\ last_year other_digit sample_db
     = Ok {| Calendar.year := 2016; Calendar.month := 8; Calendar.day := 23;
             Calendar.hour := 0; Calendar.minute := 0; Calendar.second := 0;
             Calendar.microsecond := 0 |}.
Proof. split; reflexivity. Qed.

(** ** The window filter *)

(** A row dated the very day of the window start is not in the window:
    its date is a proper prefix of the text the datetime is bound as. *)
Lemma window_start_day_excluded (since : Calendar.datetime) (st : string)
  (p t : option Q) :
  in_window since (row st (Calendar.date_text since) p t) = false.
Proof.
  unfold in_window, Calendar.bound_text. cbn [date row].
  apply proper_prefix_lt.
Qed.

Lemma length_append (a b : string) :
  String.length (a ++ b) = (String.length a + String.length b)%nat.
Proof. induction a as [|x a IH]; simpl; [reflexivity | now rewrite IH]. Qed.

Lemma zero_padded_length (width : nat) (n : Z) :
  String.length (Calendar.zero_padded width n) = width.
Proof.
  revert n. induction width as [|w IH]; intros n; simpl; [reflexivity|].
  rewrite length_append, IH. simpl. lia.
Qed.

Lemma date_text_length (t : Calendar.datetime) :
  String.length (Calendar.date_text t) = 10%nat.
Proof.
  unfold Calendar.date_text.
  now rewrite !length_append, !zero_padded_length.
Qed.

Lemma compare_longer (a b : string) (c : ascii) (s : string) :
  String.length a = String.length b ->
  String.compare (a ++ String c s) b
  = match String.compare a b with
    | Eq => Gt
    | o => o
    end.
Proof.
  revert b. induction a as [|x a IH]; intros [|y b]; simpl;
    try discriminate; [reflexivity|].
  intros H. injection H as H.
  destruct (Ascii.compare x y); [now apply IH | reflexivity | reflexivity].
Qed.

(** Against dates of ten characters the window filter is "strictly after
    the day of the window start". *)
Lemma in_window_strictly_after (since : Calendar.datetime) (r : Measurement) :
  String.length (date r) = 10%nat ->
  in_window since r = Text.lt (Calendar.date_text since) (date r).
Proof.
  intros H. unfold in_window, Calendar.bound_text, Text.le, Text.lt,
    String.leb, String.ltb.
  change (" " ++ Calendar.time_text since)
    with (String " " (Calendar.time_text since)).
  rewrite compare_longer by (now rewrite date_text_length).
  now destruct (String.compare (Calendar.date_text since) (date r)).
Qed.

(** C5, at a table with a row dated the window start: the latest date is
    2017-08-23, the window start 2016-08-23, and the rows fetched are those
    dated after 2016-08-23; the row of 2016-08-23 is left out. *)
Theorem window_leaves_out_start_day :
  exists since,
    last_year other_digit sample_db = Ok since
    /\ Calendar.date_text since = "2016-08-23"
    /\ Calendar.bound_text since = "2016-08-23 00:00:00.000000"
    /\ In (row "USC00519397" "2016-08-23" (Some 0.1%Q) (Some 81%Q)) sample_db
    /\ map date (window_rows since sample_db)
       = ["2016-08-24"; "2017-08-01"; "2017-08-23"; "2017-08-01"].
Proof.
  eexists. split; [reflexivity|].
  repeat split; try reflexivity. now left.
Qed.

(** C8, at the same table: the readings returned are those of the rows
    dated after 2016-08-23, null included, in table order; the reading 81
    of 2016-08-23 is not among them. *)
Theorem tobs_route_leaves_out_start_day :
  In (row "USC00519397" "2016-08-23" (Some 0.1%Q) (Some 81%Q)) sample_db
  /\ tobs_route other_digit sample_db
     = Ok (Jsonify (JArr [JArr [JNull]; JArr [JNum 77]; JArr [JNum 82];
                          JArr [JNum 76]])).
Proof. split; [now left | reflexivity]. Qed.

(** ** Stations *)

Lemma seen_spec (s : string) (seen : list string) :
  existsb (String.eqb s) seen = true <-> In s seen.
Proof.
  rewrite existsb_exists. split.
  - intros (x & Hx & E). apply String.eqb_eq in E. now subst.
  - intros H. exists s. split; [exact H | apply String.eqb_refl].
Qed.

Lemma distinct_In (l seen : list string) (s : string) :
  In s (distinct seen l) <-> In s l /\ ~ In s seen.
Proof. forget_parameters.
  revert seen. induction l as [|x l IH]; intros seen; simpl; [tauto|].
  destruct (existsb (String.eqb x) seen) eqn:E.
  - apply seen_spec in E. rewrite IH. split.
    + intros [? ?]. auto.
    + intros [[->|?] ?]; [contradiction | auto].
  - assert (Hx : ~ In x seen) by (rewrite <- seen_spec; congruence).
    simpl. rewrite IH. simpl. split.
    + intros [->|[? ?]]; auto.
    + intros [[->|?] ?]; [now left|].
      destruct (string_dec x s) as [->|Hne]; [now left | right; tauto].
Qed.

Lemma distinct_NoDup (l seen : list string) : NoDup (distinct seen l).
Proof. forget_parameters.
  revert seen. induction l as [|x l IH]; intros seen; simpl; [constructor|].
  destruct (existsb (String.eqb x) seen); [apply IH|].
  constructor; [|apply IH].
  rewrite distinct_In. simpl. tauto.
Qed.

Lemma station_names_spec (db : Dataset) :
  NoDup (station_names db)
  /\ forall s, In s (station_names db) <-> In s (map station db).
Proof. forget_parameters.
  split; [apply distinct_NoDup|].
  intros s. unfold station_names. rewrite distinct_In. simpl. tauto.
Qed.

(** C9.  The stations route lists every station of the table exactly once,
    however many rows name it: the names in the payload have no repeats
    and are the stations that occur; two tables with the same stations
    give the same names up to order, so equally many; and the route is a
    function of the table. *)
Theorem stations_once_each (db : Dataset) :
  exists names,
    stations db = Jsonify (JArr (map (fun s => JArr [JStr s]) names))
    /\ NoDup names
    /\ (forall s, In s names <-> exists r, In r db /\ station r = s)
    /\ (forall db',
          (forall s, In s (map station db) <-> In s (map station db')) ->
          exists names',
            stations db' = Jsonify (JArr (map (fun s => JArr [JStr s]) names'))
            /\ Permutation names names'
            /\ List.length names = List.length names')
    /\ (forall db', db' = db -> stations db' = stations db).
Proof.
  destruct (station_names_spec db) as [Hnd Hin].
  exists (station_names db). split; [reflexivity|]. split; [exact Hnd|].
  split; [|split].
  - intros s. rewrite Hin, in_map_iff. split; intros (r & ? & ?); eauto.
  - intros db' Hsame. destruct (station_names_spec db') as [Hnd' Hin'].
    exists (station_names db'). split; [reflexivity|].
    assert (P : Permutation (station_names db) (station_names db')).
    { apply NoDup_Permutation; auto. intros s. now rewrite Hin, Hin', Hsame. }
    split; [exact P | now apply Permutation_length].
  - now intros db' ->.
Qed.

(** The scenario of the specification: two stations, six rows, two entries. *)
Lemma stations_of_sample :
  List.length sample_db = 6%nat
  /\ stations sample_db
     = Jsonify (JArr [JArr [JStr "USC00519397"]; JArr [JStr "USC00513117"]]).
Proof. split; reflexivity. Qed.

(** C10.  Every element of the list the stations route returns is a
    one-element list holding a station of the table, and every element of
    the list the tobs route returns is a one-element list holding the
    reading (or null) of a row of the table: the rows are written as they
    come, not unpacked. *)
Theorem rows_written_as_one_element_lists (db : Dataset) :
  (exists items,
      stations db = Jsonify (JArr items)
      /\ Forall (fun j => exists r, In r db /\ j = JArr [JStr (station r)]) items)
  /\ (forall since, last_year other_digit db = Ok since ->
      exists items,
        tobs_route other_digit db = Ok (Jsonify (JArr items))
        /\ Forall (fun j => exists r, In r db /\ j = JArr [json_of_number (tobs r)])
                  items).
Proof.
  split.
  - eexists. split; [reflexivity|].
    apply Forall_forall. intros j Hj.
    apply in_map_iff in Hj as (s & <- & Hs).
    apply station_names_spec, in_map_iff in Hs as (r & <- & Hr). eauto.
  - intros since E. eexists. split.
    + unfold tobs_route. rewrite E. reflexivity.
    + apply Forall_forall. intros j Hj.
      apply in_map_iff in Hj as (t & <- & Ht).
      apply in_map_iff in Ht as (r & <- & Hr).
      apply filter_In in Hr as [Hr _]. eauto.
Qed.

(** ** Dicts *)

Section DictFacts.

Context {V : Type}.
Implicit Types (k : string) (v : V) (d l : list (string * V)).

Lemma dict_get_set_same k v d : dict_get k (dict_set k v d) = Some v.
Proof.
  induction d as [|[k' v'] d IH]; simpl.
  - now rewrite String.eqb_refl.
  - destruct (String.eqb k' k) eqn:E; simpl; now rewrite E.
Qed.

Lemma dict_get_set_other k k' v d :
  k <> k' -> dict_get k' (dict_set k v d) = dict_get k' d.
Proof.
  intros Hne. induction d as [|[k0 v0] d IH]; simpl.
  - apply String.eqb_neq in Hne. now rewrite Hne.
  - destruct (String.eqb k0 k) eqn:E; simpl.
    + apply String.eqb_eq in E. subst k0.
      apply String.eqb_neq in Hne. now rewrite Hne.
    + now rewrite IH.
Qed.

Lemma dict_set_keys k v d x :
  In x (map fst (dict_set k v d)) <-> x = k \/ In x (map fst d).
Proof. forget_parameters.
  induction d as [|[k' v'] d IH]; simpl.
  - intuition.
  - destruct (String.eqb k' k) eqn:E; simpl.
    + apply String.eqb_eq in E. subst k'. intuition.
    + rewrite IH. intuition.
Qed.

Lemma dict_set_NoDup k v d :
  NoDup (map fst d) -> NoDup (map fst (dict_set k v d)).
Proof.
  induction d as [|[k' v'] d IH]; simpl; intros H.
  - constructor; [intros [] | constructor].
  - inversion H as [|? ? Hnotin Hnd]; subst.
    destruct (String.eqb k' k) eqn:E; simpl.
    + now constructor.
    + constructor; [|auto].
      rewrite dict_set_keys. intros [->|Hin]; [|contradiction].
      now rewrite String.eqb_refl in E.
Qed.

Lemma dict_fold_get k l d :
  dict_get k (fold_left dict_step l d)
  = match last_value k l with
    | Some v => Some v
    | None => dict_get k d
    end.
Proof.
  revert d. induction l as [|[k' v'] l IH]; intros d; simpl; [reflexivity|].
  rewrite IH. destruct (last_value k l); [reflexivity|].
  unfold dict_step. cbn [fst snd].
  destruct (String.eqb k' k) eqn:E.
  - apply String.eqb_eq in E. subst. apply dict_get_set_same.
  - apply String.eqb_neq in E. now apply dict_get_set_other.
Qed.

Lemma dict_fold_keys l d x :
  In x (map fst (fold_left dict_step l d))
  <-> In x (map fst l) \/ In x (map fst d).
Proof. forget_parameters.
  revert d. induction l as [|[k' v'] l IH]; intros d; simpl; [tauto|].
  rewrite IH. unfold dict_step. cbn [fst snd]. rewrite dict_set_keys.
  intuition.
Qed.

Lemma dict_fold_NoDup l d :
  NoDup (map fst d) -> NoDup (map fst (fold_left dict_step l d)).
Proof.
  revert d. induction l as [|kv l IH]; intros d H; simpl; [exact H|].
  apply IH, dict_set_NoDup, H.
Qed.

(** The dict built from a frame: its keys are the keys of the frame,
    each once, and a key holds the value of its last row. *)
Lemma dict_of_pairs_spec l :
  NoDup (map fst (dict_of_pairs l))
  /\ (forall x, In x (map fst (dict_of_pairs l)) <-> In x (map fst l))
  /\ (forall k, dict_get k (dict_of_pairs l) = last_value k l).
Proof. forget_parameters.
  unfold dict_of_pairs. split; [|split].
  - apply dict_fold_NoDup. constructor.
  - intros x. rewrite dict_fold_keys. simpl. tauto.
  - intros k. rewrite dict_fold_get. now destruct (last_value k l).
Qed.

Lemma dict_get_In k v d :
  NoDup (map fst d) -> In (k, v) d -> dict_get k d = Some v.
Proof.
  induction d as [|[k' v'] d IH]; simpl; intros Hnd Hin; [destruct Hin|].
  destruct Hin as [E|Hin].
  - injection E as -> ->. now rewrite String.eqb_refl.
  - inversion Hnd as [|? ? Hnotin Hnd']; subst.
    destruct (String.eqb k' k) eqn:E; [|auto].
    apply String.eqb_eq in E. subst k'.
    exfalso. apply Hnotin. change k with (fst (k, v)). now apply in_map.
Qed.

(** [last_value] looks at the rows of the key only. *)
Lemma last_value_rows_of k l : last_value k l = last_value k (rows_of k l).
Proof.
  induction l as [|[k' v'] l IH]; simpl; [reflexivity|].
  destruct (String.eqb k' k) eqn:E; simpl.
  - now rewrite IH, E.
  - rewrite IH. now destruct (last_value k (rows_of k l)).
Qed.

(** [last_value] finds the last row of the key. *)
Lemma last_value_split k v l :
  last_value k l = Some v ->
  exists before after,
    l = (before ++ (k, v) :: after)%list /\ ~ In k (map fst after).
Proof. forget_parameters.
  induction l as [|[k' v'] l IH]; simpl; [discriminate|].
  destruct (last_value k l) as [x|] eqn:E.
  - intros H. injection H as ->.
    destruct (IH eq_refl) as (before & after & -> & Hafter).
    now exists ((k', v') :: before), after.
  - destruct (String.eqb k' k) eqn:Ek; [|discriminate].
    apply String.eqb_eq in Ek. subst k'. intros H. injection H as ->.
    exists [], l. split; [reflexivity|].
    clear IH. induction l as [|[k0 v0] l IHl]; simpl; [tauto|].
    simpl in E. destruct (last_value k l); [discriminate|].
    destruct (String.eqb k0 k) eqn:E0; [discriminate|].
    apply String.eqb_neq in E0. intros [?|?]; [contradiction | now apply IHl].
Qed.

(** *** Sorting the keys *)

Lemma insert_by_key_perm (kv : string * V) l :
  Permutation (insert_by_key kv l) (kv :: l).
Proof.
  induction l as [|kv' l IH]; simpl; [reflexivity|].
  destruct (Text.le (fst kv) (fst kv')); [reflexivity|].
  rewrite IH. apply perm_swap.
Qed.

Lemma sort_keys_perm d : Permutation (sort_keys d) d.
Proof.
  induction d as [|kv d IH]; simpl; [reflexivity|].
  rewrite insert_by_key_perm. now constructor.
Qed.

Lemma insert_by_key_sorted (kv : string * V) l :
  StronglySorted key_le l -> StronglySorted key_le (insert_by_key kv l).
Proof.
  induction l as [|kv' l IH]; simpl; intros H.
  - repeat constructor.
  - inversion H as [|? ? Hs Hall]; subst.
    destruct (Text.le (fst kv) (fst kv')) eqn:E.
    + constructor; [exact H|]. constructor; [exact E|].
      eapply Forall_impl; [|exact Hall].
      intros x Hx. unfold key_le in *. now apply le_trans with (fst kv').
    + constructor; [auto|].
      apply Forall_forall. intros x Hx.
      apply (Permutation_in _ (insert_by_key_perm kv l)) in Hx.
      destruct Hx as [<-|Hx].
      * apply lt_le. now apply not_le_lt.
      * rewrite Forall_forall in Hall. now apply Hall.
Qed.

Lemma sort_keys_sorted d : StronglySorted key_le (sort_keys d).
Proof.
  induction d as [|kv d IH]; simpl; [constructor|].
  now apply insert_by_key_sorted.
Qed.

(** Sorted keys without repeats ascend strictly. *)
Lemma sorted_keys_strict l :
  StronglySorted key_le l -> NoDup (map fst l) ->
  StronglySorted (fun a b => Text.lt a b = true) (map fst l).
Proof.
  induction l as [|kv l IH]; simpl; intros Hs Hnd; [constructor|].
  inversion Hs as [|? ? Hs' Hall]; subst.
  inversion Hnd as [|? ? Hnotin Hnd']; subst.
  constructor; [auto|].
  apply Forall_forall. intros x Hx.
  apply in_map_iff in Hx as (kv' & <- & Hin).
  rewrite Forall_forall in Hall. specialize (Hall kv' Hin).
  apply le_cases in Hall as [E|Hlt]; [|exact Hlt].
  exfalso. apply Hnotin. rewrite E. now apply in_map.
Qed.

End DictFacts.

(** ** The precipitation route *)

Lemma insert_record_perm (r : prcp_record) (l : list prcp_record) :
  Permutation (insert_record r l) (r :: l).
Proof.
  induction l as [|r' l IH]; simpl; [reflexivity|].
  destruct (Text.lt (fst r) (fst r')); [reflexivity|].
  rewrite IH. apply perm_swap.
Qed.

Lemma stable_sort_values_perm (l : list prcp_record) :
  Permutation (stable_sort_values l) l.
Proof.
  unfold stable_sort_values.
  enough (H : forall acc,
             Permutation (fold_left (fun acc r => insert_record r acc) l acc)
                         (acc ++ l)%list) by apply (H []).
  induction l as [|r l IH]; intros acc; simpl.
  - now rewrite app_nil_r.
  - rewrite IH, insert_record_perm. apply Permutation_middle.
Qed.

Lemma perm_in_iff {A : Type} (x : A) (l l' : list A) :
  Permutation l l' -> (In x l <-> In x l').
Proof.
  intros P. split; apply Permutation_in; [exact P | now symmetry].
Qed.

Lemma records_dates (since : Calendar.datetime) (db : Dataset) (d : string) :
  In d (map fst (last_year_records since db))
  <-> exists r, In r (window_rows since db) /\ date r = d.
Proof.
  unfold last_year_records. rewrite map_map. cbn [fst].
  rewrite in_map_iff. split; intros (r & ? & ?); eauto.
Qed.

(** C4 (as amended).  When the window start can be computed and
    [sort_values] rearranges the rows it is given, the payload of the
    precipitation route is a JSON object with the single key
    [Precipitation], whose value is the object mapping date to
    precipitation: one entry per distinct date of the fetched rows, the
    dates strictly ascending, each date with the value of its last row in
    the sorted frame, which is the value of a fetched row of that date and,
    when the sort keeps the rows of that date in fetch order, of the row
    fetched last. *)
Theorem precipitation_series
  (sort_values : list prcp_record -> list prcp_record)
  (db : Dataset) (since : Calendar.datetime) :
  (forall l, Permutation (sort_values l) l) ->
  last_year other_digit db = Ok since ->
  exists series : list (string * option Q),
    precipitation other_digit sort_values db
    = Ok (Jsonify
            (JObj [("Precipitation",
                    JObj (map (fun kv =>
                                 (fst kv,
                                  json_of_amount
                                    (numeric_column
                                       (last_year_records since db))
                                    (snd kv)))
                              series))]))
    /\ StronglySorted (fun a b => Text.lt a b = true) (map fst series)
    /\ (forall d, In d (map fst series)
                  <-> exists r, In r (window_rows since db) /\ date r = d)
    /\ (forall d p,
          In (d, p) series ->
          last_value d (prcp_df sort_values since db) = Some p
          /\ In (d, p) (last_year_records since db)
          /\ (rows_of d (prcp_df sort_values since db)
              = rows_of d (last_year_records since db) ->
              exists before after,
                last_year_records since db = (before ++ (d, p) :: after)%list
                /\ ~ In d (map fst after))).
Proof.
  intros Hperm Hsince.
  set (frame := prcp_df sort_values since db).
  destruct (dict_of_pairs_spec frame) as (Hnd & Hkeys & Hget).
  pose proof (sort_keys_perm (dict_of_pairs frame)) as Hsorted_perm.
  exists (sort_keys (dict_of_pairs frame)). split; [|split; [|split]].
  - unfold precipitation. rewrite Hsince. reflexivity.
  - apply sorted_keys_strict; [apply sort_keys_sorted|].
    eapply Permutation_NoDup; [|exact Hnd].
    apply Permutation_map. now symmetry.
  - intros d. rewrite <- records_dates.
    rewrite (perm_in_iff d _ _ (Permutation_map fst Hsorted_perm)), Hkeys.
    subst frame. unfold prcp_df.
    now rewrite (perm_in_iff d _ _ (Permutation_map fst (Hperm _))).
  - intros d p Hin.
    apply (Permutation_in _ Hsorted_perm) in Hin.
    apply (dict_get_In _ _ _ Hnd) in Hin. rewrite Hget in Hin.
    split; [exact Hin|]. split.
    + destruct (last_value_split _ _ _ Hin) as (before & after & E & _).
      apply (Permutation_in _ (Hperm _)). fold (prcp_df sort_values since db).
      fold frame. rewrite E. apply in_elt.
    + intros Hstable. apply last_value_split.
      rewrite last_value_rows_of, <- Hstable, <- last_value_rows_of. exact Hin.
Qed.

(** The scenario of the specification: two stations report 2017-08-01, 0.5
    first and 0.8 later; with rows of equal date kept in fetch order the
    entry of 2017-08-01 is 0.8. *)
Lemma precipitation_of_sample :
  precipitation other_digit stable_sort_values sample_db
  = Ok (Jsonify
          (JObj [("Precipitation",
                  JObj [("2016-08-24", JNum 0.2); ("2017-08-01", JNum 0.8);
                        ("2017-08-23", JNaN)])])).
Proof. reflexivity. Qed.

(** * Further properties of the routes *)

(** ** The two-date route: order of the dates *)

Lemma ordered_range_sym (a b : string) : ordered_range a b = ordered_range b a.
Proof.
  unfold ordered_range, Text.gt, String.ltb.
  rewrite (String.compare_antisym a b).
  destruct (String.compare b a) eqn:E; simpl; try reflexivity.
  apply String.compare_eq_iff in E. now subst.
Qed.

Lemma ordered_range_le (a b : string) :
  Text.le (fst (ordered_range a b)) (snd (ordered_range a b)) = true.
Proof.
  unfold ordered_range. destruct (Text.gt a b) eqn:E; cbn [fst snd].
  - apply lt_le. exact E.
  - apply not_lt_le. exact E.
Qed.

(** X1.  Whatever the order of the two path parameters, [calc_temps] is
    called with a start that is not after the end, the pair being the two
    parameters themselves; so exchanging the parameters never changes the
    JSON payload of the two-date route. *)
Theorem two_date_route_order_free (db : Dataset) (a b : string) :
  Text.le (fst (ordered_range a b)) (snd (ordered_range a b)) = true
  /\ (ordered_range a b = (a, b) \/ ordered_range a b = (b, a))
  /\ ordered_range a b = ordered_range b a
  /\ forall payload,
      calc_temps_start_end sqlite_avg db a b = Jsonify payload
      <-> calc_temps_start_end sqlite_avg db b a = Jsonify payload.
Proof.
  split; [apply ordered_range_le|]. split.
  { unfold ordered_range. destruct (Text.gt a b); auto. }
  split; [apply ordered_range_sym|].
  intros payload. unfold calc_temps_start_end.
  rewrite (ordered_range_sym b a), (orb_comm (negb (date_format_ok b))).
  destruct (negb (date_format_ok a) || negb (date_format_ok b)).
  - split; discriminate.
  - destruct (ordered_range a b) as [lo hi].
    destruct (calc_temps sqlite_avg db lo (Some hi)); [split; discriminate | reflexivity].
Qed.

(** ** What a temperature route can answer *)



(** ** Ranges that match nothing, and ranges that match everything *)

Lemma lt_not_le (a b : string) : Text.lt a b = true -> Text.le b a = false.
Proof.
  unfold Text.lt, Text.le, String.ltb, String.leb.
  rewrite (String.compare_antisym b a).
  destruct (String.compare a b); simpl; congruence.
Qed.

Lemma le_lt_trans (a b c : string) :
  Text.le a b = true -> Text.lt b c = true -> Text.lt a c = true.
Proof.
  rewrite le_cases. intros [->|H] H'; [exact H' | now apply lt_trans with b].
Qed.

Lemma calc_temps_nothing_selected (db : Dataset) (s : string) (e : option string) :
  (forall r, In r db -> in_range s e r = false) -> calc_temps sqlite_avg db s e = [].
Proof.
  intros H.
  destruct (calc_temps_cases db s e) as [[_ ->]|(q & qs & E & _)]; [reflexivity|].
  assert (Hq : In q (non_null (map tobs (filter (in_range s e) db))))
    by (rewrite E; now left).
  apply non_null_In, in_map_iff in Hq as (r & _ & Hr).
  apply filter_In in Hr as [Hin Hr]. rewrite (H r Hin) in Hr. discriminate.
Qed.

(** X3.  A start that passes the check and is later than the latest date
    of the table (or any such start, on an empty table) gets the no-match
    text of the one-date route, never a payload. *)
Theorem start_after_latest_no_match (db : Dataset) (start : string) :
  date_format_ok start = true ->
  match latest_date db with
  | Some latest => Text.lt latest start = true
  | None => True
  end ->
  calc_temps_start sqlite_avg db start = Text (no_match_start_message start).
Proof.
  intros Hok Hlate. unfold calc_temps_start. rewrite Hok. cbn [negb].
  rewrite calc_temps_nothing_selected; [reflexivity|].
  intros r Hr. cbn [in_range].
  destruct db as [|r0 db']; [destruct Hr|].
  destruct (latest_date_max (r0 :: db') ltac:(discriminate))
    as (latest & E & _ & Hmax).
  rewrite E in Hlate. apply lt_not_le.
  apply le_lt_trans with latest; [now apply Hmax | exact Hlate].
Qed.

(** X4.  An end date on or after every date of the table does not
    restrict the range: [calc_temps] with such an end returns what it
    returns with no end, so the two-date route with a start not after
    such an end gives the payload the one-date route gives. *)
Theorem end_after_all_dates_is_open_range (db : Dataset) (start end_ : string) :
  (forall r, In r db -> Text.le (date r) end_ = true) ->
  calc_temps sqlite_avg db start (Some end_) = calc_temps sqlite_avg db start None
  /\ (date_format_ok end_ = true -> Text.gt start end_ = false ->
      forall payload,
        calc_temps_start_end sqlite_avg db start end_ = Jsonify payload
        <-> calc_temps_start sqlite_avg db start = Jsonify payload).
Proof.
  intros Hall.
  assert (E : calc_temps sqlite_avg db start (Some end_) = calc_temps sqlite_avg db start None).
  { unfold calc_temps.
    rewrite (filter_ext_in (in_range start (Some end_)) (in_range start None));
      [reflexivity|].
    intros r Hr. cbn [in_range]. rewrite (Hall r Hr). apply andb_true_r. }
  split; [exact E|].
  intros Hend Hord payload.
  unfold calc_temps_start_end, calc_temps_start, ordered_range.
  rewrite Hend, Hord, orb_false_r.
  destruct (negb (date_format_ok start)); [split; discriminate|].
  rewrite E. destruct (calc_temps sqlite_avg db start None); [split; discriminate|reflexivity].
Qed.

(** ** Widening a range *)

Lemma readings_nonempty (db : Dataset) (s : string) (e : option string) (v : Q) :
  In v (non_null (map tobs (filter (in_range s e) db))) ->
  exists lo mean hi,
    calc_temps sqlite_avg db s e = [(Some lo, Some mean, Some hi)]
    /\ (lo <= v <= hi)%Q.
Proof.
  intros Hv.
  destruct (calc_temps_cases db s e) as [[E _]|(q & qs & E & ->)].
  - rewrite E in Hv. destruct Hv.
  - destruct (aggregates_spec _ q qs E)
      as (lo & mean & hi & -> & -> & -> & _ & _ & Hall & _).
    exists lo, mean, hi. split; [reflexivity | now apply Hall].
Qed.

Lemma calc_temps_extremes_read (db : Dataset) (s : string) (e : option string)
  (lo : Q) (mean : sql_real) (hi : Q) :
  calc_temps sqlite_avg db s e = [(Some lo, Some mean, Some hi)] ->
  In lo (non_null (map tobs (filter (in_range s e) db)))
  /\ In hi (non_null (map tobs (filter (in_range s e) db))).
Proof.
  destruct (calc_temps_cases db s e) as [[_ ->]|(q & qs & E & ->)]; [discriminate|].
  destruct (aggregates_spec _ q qs E)
    as (lo' & mean' & hi' & -> & -> & -> & Hlo & Hhi & _).
  intros H. injection H as <- <- <-. now split.
Qed.

(** X5.  Moving the start earlier only widens the range: a range that
    matched still matches, its minimum does not rise and its maximum does
    not fall. *)
Theorem earlier_start_widens (db : Dataset) (s1 s2 : string)
  (e : option string) (lo1 : Q) (mean1 : sql_real) (hi1 : Q) :
  Text.le s2 s1 = true ->
  calc_temps sqlite_avg db s1 e = [(Some lo1, Some mean1, Some hi1)] ->
  exists lo2 mean2 hi2,
    calc_temps sqlite_avg db s2 e = [(Some lo2, Some mean2, Some hi2)]
    /\ (lo2 <= lo1)%Q /\ (hi1 <= hi2)%Q.
Proof.
  intros Hs H1.
  destruct (calc_temps_extremes_read _ _ _ _ _ _ H1) as [Hlo Hhi].
  assert (Hsub : forall v,
             In v (non_null (map tobs (filter (in_range s1 e) db))) ->
             In v (non_null (map tobs (filter (in_range s2 e) db)))).
  { intros v Hv. apply non_null_In, in_map_iff in Hv as (r & Hr & Hin).
    apply filter_In in Hin as [Hin Hrange].
    apply non_null_In. rewrite <- Hr. apply in_map, filter_In. split; [exact Hin|].
    destruct e as [e|]; cbn [in_range] in *.
    - apply andb_true_iff in Hrange as [Ha Hb]. rewrite Hb, andb_true_r.
      now apply le_trans with s1.
    - now apply le_trans with s1. }
  destruct (readings_nonempty db s2 e lo1 (Hsub _ Hlo))
    as (lo2 & mean2 & hi2 & E2 & Hlo2 & _).
  destruct (readings_nonempty db s2 e hi1 (Hsub _ Hhi))
    as (lo2' & mean2' & hi2' & E2' & _ & Hhi2).
  rewrite E2 in E2'. injection E2' as <- <- <-.
  now exists lo2, mean2, hi2.
Qed.

(** ** The order of the rows *)

Lemma perm_filter {A : Type} (f : A -> bool) (l l' : list A) :
  Permutation l l' -> Permutation (filter f l) (filter f l').
Proof.
  induction 1 as [|x l l' _ IH|x y l|l l' l'' _ IH1 _ IH2]; simpl.
  - constructor.
  - destruct (f x); [now constructor | exact IH].
  - destruct (f x), (f y); try reflexivity. apply perm_swap.
  - now transitivity (filter f l').
Qed.

Lemma perm_non_null (l l' : list (option Q)) :
  Permutation l l' -> Permutation (non_null l) (non_null l').
Proof.
  induction 1 as [|x l l' _ IH|x y l|l l' l'' _ IH1 _ IH2]; simpl.
  - constructor.
  - destruct x; [now constructor | exact IH].
  - destruct x, y; try reflexivity. apply perm_swap.
  - now transitivity (non_null l').
Qed.

Lemma Qsum_perm (l l' : list Q) : Permutation l l' -> (Qsum l == Qsum l')%Q.
Proof.
  unfold Qsum.
  induction 1 as [|x l l' _ IH|x y l|l l' l'' _ IH1 _ IH2]; simpl.
  - reflexivity.
  - now rewrite IH.
  - ring.
  - now rewrite IH1.
Qed.

(** In exact arithmetic the mean does not depend on the order of the
    readings; the floating-point [avg] may. *)
Lemma exact_avg_perm (l l' : list Q) :
  Permutation l l' ->
  exists m m', exact_avg l = Finite m /\ exact_avg l' = Finite m' /\ (m == m')%Q.
Proof.
  intros H. do 2 eexists. split; [reflexivity|]. split; [reflexivity|].
  unfold count_of. rewrite (Permutation_length H), (Qsum_perm l l' H).
  reflexivity.
Qed.

Lemma readings_perm (db db' : Dataset) (s : string) (e : option string) :
  Permutation db db' ->
  Permutation (non_null (map tobs (filter (in_range s e) db)))
              (non_null (map tobs (filter (in_range s e) db'))).
Proof.
  intros P. now apply perm_non_null, Permutation_map, perm_filter.
Qed.

(** What a non-empty result says about the readings in range. *)
Lemma calc_temps_read (db : Dataset) (s : string) (e : option string)
  (lo : Q) (mean : sql_real) (hi : Q) :
  calc_temps sqlite_avg db s e = [(Some lo, Some mean, Some hi)] ->
  let readings := non_null (map tobs (filter (in_range s e) db)) in
  In lo readings /\ In hi readings
  /\ (forall v, In v readings -> (lo <= v <= hi)%Q).
Proof.
  intros H readings. subst readings.
  destruct (calc_temps_cases db s e) as [[_ E]|(q & qs & E & E')].
  - rewrite E in H. discriminate.
  - destruct (aggregates_spec _ q qs E)
      as (lo' & mean' & hi' & Hlo & Hmean & Hhi & H1 & H2 & H3 & _).
    rewrite E', Hlo, Hmean, Hhi in H. injection H as <- <- <-.
    now repeat split; auto; apply H3.
Qed.

(** X6.  Whether [calc_temps] finds a reading, and the minimum and the
    maximum it returns, do not depend on the order of the rows of the
    table: after any rearrangement the result is empty when it was empty,
    and otherwise the minimum and the maximum are the same numbers.  (The
    average is summed in the order of the rows and is not covered.) *)
Theorem calc_temps_row_order (db db' : Dataset) (s : string) (e : option string) :
  Permutation db db' ->
  (calc_temps sqlite_avg db s e = [] <-> calc_temps sqlite_avg db' s e = [])
  /\ forall lo mean hi lo' mean' hi',
      calc_temps sqlite_avg db s e = [(Some lo, Some mean, Some hi)] ->
      calc_temps sqlite_avg db' s e = [(Some lo', Some mean', Some hi')] ->
      (lo == lo')%Q /\ (hi == hi')%Q.
Proof. forget_parameters.
  intros P. pose proof (readings_perm db db' s e P) as Pr. split.
  - destruct (calc_temps_cases db s e) as [[E ->]|(q & qs & E & ->)],
             (calc_temps_cases db' s e) as [[E' ->]|(q' & qs' & E' & ->)];
      try tauto; try (split; discriminate); exfalso; rewrite E, E' in Pr.
    + now apply Permutation_nil in Pr.
    + symmetry in Pr. now apply Permutation_nil in Pr.
  - intros lo mean hi lo' mean' hi' H H'.
    apply calc_temps_read in H as (Hlo & Hhi & Hall).
    apply calc_temps_read in H' as (Hlo' & Hhi' & Hall').
    set (readings := non_null (map tobs (filter (in_range s e) db))) in *.
    set (readings' := non_null (map tobs (filter (in_range s e) db'))) in *.
    assert (Hin : forall v, In v readings <-> In v readings')
      by (intros v; now apply perm_in_iff).
    split; apply Qle_antisym.
    + apply Hall. now apply Hin.
    + apply Hall'. now apply Hin.
    + apply Hall'. now apply Hin.
    + apply Hall. now apply Hin.
Qed.

(** ** The date check *)

(** X7.  The date check reads the first ten characters and nothing else:
    its verdict on a text is its verdict on the first ten characters of
    the text, a text that passes has at least ten characters, and it
    still passes with anything added at its end. *)
Theorem date_check_reads_ten_characters (s : string) :
  date_format_ok s = date_format_ok (String.substring 0 10 s)
  /\ (date_format_ok s = true -> (10 <= String.length s)%nat)
  /\ (date_format_ok s = true ->
      forall rest, date_format_ok (s ++ rest) = true).
Proof.
  split; [|split].
  - unfold date_format_ok, Regex.date_pattern.
    cbn [Regex.re_match Regex.eat_item].
    do 10 (destruct s as [|? s]; [reflexivity|]).
    cbn [String.substring Regex.eat].
    repeat match goal with
           | |- context [Regex.atom_matches ?a ?c] =>
               destruct (Regex.atom_matches a c); try reflexivity
           end.
  - intros H. apply date_format_ok_iff in H
      as (y1 & y2 & y3 & y4 & m1 & m2 & d1 & d2 & r & _ & ->).
    cbn [String.length]. lia.
  - intros H rest. apply date_format_ok_iff in H
      as (y1 & y2 & y3 & y4 & m1 & m2 & d1 & d2 & r & Hd & ->).
    apply date_format_ok_iff.
    exists y1, y2, y3, y4, m1, m2, d1, d2, (r ++ rest). now split.
Qed.

(** ** When the window routes fail *)

Lemma strptime_raises (s : string) (e : exn) :
  Calendar.strptime other_digit (Some s) = Raise e -> e = ValueError.
Proof.
  unfold Calendar.strptime, Calendar.make_date.
  repeat match goal with
         | |- context [match ?x with _ => _ end] => destruct x
         end; intros H; (discriminate H || now injection H).
Qed.

Lemma sub_days_raises (t : Calendar.datetime) (n : Z) (e : exn) :
  Calendar.sub_days t n = Raise e -> e = OverflowError.
Proof.
  unfold Calendar.sub_days.
  destruct (_ && _); [|intros H; now injection H].
  destruct (Calendar.ord2ymd _) as [[y m] d]. discriminate.
Qed.

Lemma latest_date_none (db : Dataset) : latest_date db = None <-> db = [].
Proof.
  unfold latest_date. destruct db; simpl; split; congruence.
Qed.

(** X8.  The two window routes fail exactly when the window start cannot
    be computed, with its exception, and otherwise return JSON.  The
    window start fails with [TypeError] exactly on an empty table, with
    [ValueError] when the latest date text is not a date, and with
    [OverflowError] when the latest date lies within the first 365 days of
    year 1. *)
Theorem window_routes_failures
  (sort_values : list prcp_record -> list prcp_record) (db : Dataset) :
  (last_year other_digit db = Raise TypeError <-> db = [])
  /\ (forall latest,
        latest_date db = Some latest ->
        (forall t, Calendar.strptime other_digit (Some latest) <> Ok t) ->
        last_year other_digit db = Raise ValueError)
  /\ (forall latest t,
        latest_date db = Some latest ->
        Calendar.strptime other_digit (Some latest) = Ok t ->
        (Calendar.toordinal t <= 365)%Z ->
        last_year other_digit db = Raise OverflowError)
  /\ (forall e,
        last_year other_digit db = Raise e ->
        precipitation other_digit sort_values db = Raise e /\ tobs_route other_digit db = Raise e)
  /\ (forall since,
        last_year other_digit db = Ok since ->
        (exists payload, precipitation other_digit sort_values db = Ok (Jsonify payload))
        /\ (exists payload, tobs_route other_digit db = Ok (Jsonify payload))).
Proof.
  split; [|split; [|split; [|split]]].
  - split.
    + unfold last_year. destruct (latest_date db) as [latest|] eqn:E.
      * destruct (Calendar.strptime other_digit (Some latest)) as [t|e] eqn:Et; cbn [bind].
        -- intros H. apply sub_days_raises in H. discriminate.
        -- intros H. injection H as ->. apply strptime_raises in Et. discriminate.
      * intros _. now apply latest_date_none.
    + intros ->. reflexivity.
  - intros latest E Hno. unfold last_year. rewrite E.
    destruct (Calendar.strptime other_digit (Some latest)) as [t|e] eqn:Et.
    + now destruct (Hno t).
    + apply strptime_raises in Et. now subst.
  - intros latest t E Et Hord. unfold last_year. rewrite E, Et. cbn [bind].
    unfold Calendar.sub_days.
    replace (0 <? Calendar.toordinal t - 365)%Z with false; [reflexivity|].
    symmetry. apply Z.ltb_ge. lia.
  - intros e E. unfold precipitation, tobs_route. now rewrite E.
  - intros since E. unfold precipitation, tobs_route. rewrite E. cbn [bind].
    split; eexists; reflexivity.
Qed.

(** ** Which rows are in the window *)

(** X9.  On a table whose dates all have ten characters, the window
    filter keeps exactly the rows dated strictly after the day of the
    window start, in table order, with no upper bound. *)
Theorem window_rows_after_start_day (since : Calendar.datetime) (db : Dataset) :
  (forall r, In r db -> String.length (date r) = 10%nat) ->
  window_rows since db
  = filter (fun r => Text.lt (Calendar.date_text since) (date r)) db.
Proof.
  intros H. unfold window_rows. apply filter_ext_in.
  intros r Hr. now apply in_window_strictly_after, H.
Qed.

(** ** The precipitation series and the sort *)

Section SeriesFacts.

Context {V : Type}.
Implicit Types (k : string) (v : V) (d l : list (string * V)).

Lemma dict_get_Some_In k v d : dict_get k d = Some v -> In (k, v) d.
Proof.
  induction d as [|[k' v'] d IH]; simpl; [discriminate|].
  destruct (String.eqb k' k) eqn:E.
  - apply String.eqb_eq in E. intros H. injection H as ->. subst. now left.
  - auto.
Qed.

Lemma dict_get_perm k d d' :
  NoDup (map fst d) -> Permutation d d' -> dict_get k d = dict_get k d'.
Proof.
  intros Hnd P.
  assert (Hnd' : NoDup (map fst d'))
    by (eapply Permutation_NoDup; [apply Permutation_map, P | exact Hnd]).
  destruct (dict_get k d) as [v|] eqn:E.
  - symmetry. apply dict_get_In; [exact Hnd'|].
    apply (Permutation_in _ P). now apply dict_get_Some_In.
  - destruct (dict_get k d') as [v|] eqn:E'; [|reflexivity].
    apply dict_get_Some_In in E'. symmetry in P.
    apply (Permutation_in _ P) in E'.
    apply (dict_get_In _ _ _ Hnd) in E'. congruence.
Qed.

(** Two dicts with strictly ascending keys that answer every lookup alike
    are the same list. *)
Lemma sorted_dict_eq l1 l2 :
  StronglySorted (fun a b => Text.lt a b = true) (map fst l1) ->
  StronglySorted (fun a b => Text.lt a b = true) (map fst l2) ->
  (forall k, dict_get k l1 = dict_get k l2) ->
  l1 = l2.
Proof.
  revert l2. induction l1 as [|[k1 v1] l1 IH]; intros [|[k2 v2] l2] S1 S2 H.
  - reflexivity.
  - specialize (H k2). simpl in H. rewrite String.eqb_refl in H. discriminate.
  - specialize (H k1). simpl in H. rewrite String.eqb_refl in H. discriminate.
  - cbn [map fst] in S1, S2.
    inversion S1 as [|? ? S1' F1]; subst. inversion S2 as [|? ? S2' F2]; subst.
    rewrite Forall_forall in F1, F2.
    assert (Hfresh : forall k l,
               (forall x, In x (map fst l) -> Text.lt k x = true) ->
               @dict_get V k l = None).
    { intros k l Hl. destruct (dict_get k l) as [v|] eqn:E; [|reflexivity].
      apply dict_get_Some_In in E.
      assert (Hk : In k (map fst l)) by (change k with (fst (k, v)); now apply in_map).
      apply Hl in Hk. now rewrite lt_irrefl in Hk. }
    assert (Ek : k1 = k2).
    { destruct (string_dec k1 k2) as [E|Hne]; [exact E | exfalso].
      pose proof (H k1) as H1. pose proof (H k2) as H2. simpl in H1, H2.
      rewrite String.eqb_refl in H1, H2.
      assert (E12 : String.eqb k1 k2 = false) by now apply String.eqb_neq.
      assert (E21 : String.eqb k2 k1 = false)
        by (apply String.eqb_neq; congruence).
      rewrite E21 in H1. rewrite E12 in H2.
      symmetry in H1. apply dict_get_Some_In in H1. apply dict_get_Some_In in H2.
      assert (L21 : Text.lt k2 k1 = true)
        by (apply F2; change k1 with (fst (k1, v1)); now apply in_map).
      assert (L12 : Text.lt k1 k2 = true)
        by (apply F1; change k2 with (fst (k2, v2)); now apply in_map).
      pose proof (lt_trans _ _ _ L12 L21) as L. now rewrite lt_irrefl in L. }
    subst k2.
    pose proof (H k1) as H1. simpl in H1. rewrite String.eqb_refl in H1.
    injection H1 as <-. f_equal. apply IH; auto.
    intros k. specialize (H k). simpl in H.
    destruct (String.eqb k1 k) eqn:E; [|exact H].
    apply String.eqb_eq in E. subst k.
    now rewrite (Hfresh k1 l1 F1), (Hfresh k1 l2 F2).
Qed.

(** The series written for a frame is decided by the last row of each
    key. *)
Lemma series_determined l1 l2 :
  (forall k, last_value k l1 = last_value k l2) ->
  sort_keys (dict_of_pairs l1) = sort_keys (dict_of_pairs l2).
Proof.
  intros H.
  destruct (dict_of_pairs_spec l1) as (Hnd1 & _ & Hget1).
  destruct (dict_of_pairs_spec l2) as (Hnd2 & _ & Hget2).
  assert (Hsorted : forall d : list (string * V),
             NoDup (map fst d) ->
             StronglySorted (fun a b => Text.lt a b = true)
                            (map fst (sort_keys d))).
  { intros d Hnd. apply sorted_keys_strict; [apply sort_keys_sorted|].
    eapply Permutation_NoDup; [|exact Hnd].
    apply Permutation_map. symmetry. apply sort_keys_perm. }
  apply sorted_dict_eq; auto.
  intros k.
  rewrite <- (dict_get_perm k _ _ Hnd1 (Permutation_sym (sort_keys_perm _))).
  rewrite <- (dict_get_perm k _ _ Hnd2 (Permutation_sym (sort_keys_perm _))).
  now rewrite Hget1, Hget2.
Qed.

Lemma last_value_In k v l :
  NoDup (map fst l) -> In (k, v) l -> last_value k l = Some v.
Proof.
  intros Hnd Hin.
  destruct (dict_of_pairs_spec l) as (_ & _ & Hget). rewrite <- Hget.
  destruct (last_value k l) as [x|] eqn:E.
  - rewrite Hget, E. f_equal.
    apply last_value_split in E as (before & after & -> & _).
    rewrite map_app in Hnd. cbn [map fst] in Hnd.
    apply in_app_or in Hin. destruct Hin as [Hin|[Hin|Hin]].
    + exfalso. apply NoDup_remove_2 in Hnd. apply Hnd, in_or_app. left.
      change k with (fst (k, v)). now apply in_map.
    + congruence.
    + exfalso. apply NoDup_remove_2 in Hnd. apply Hnd, in_or_app. right.
      change k with (fst (k, v)). now apply in_map.
  - exfalso. clear Hget Hnd.
    induction l as [|[k' v'] l IH]; [destruct Hin|].
    simpl in E. destruct (last_value k l); [discriminate|].
    destruct (String.eqb k' k) eqn:Ek; [discriminate|].
    destruct Hin as [Hin|Hin]; [|auto].
    injection Hin as -> ->. now rewrite String.eqb_refl in Ek.
Qed.

Lemma last_value_perm k l l' :
  NoDup (map fst l) -> Permutation l l' -> last_value k l = last_value k l'.
Proof.
  intros Hnd P.
  assert (Hnd' : NoDup (map fst l'))
    by (eapply Permutation_NoDup; [apply Permutation_map, P | exact Hnd]).
  destruct (last_value k l) as [v|] eqn:E.
  - symmetry. apply last_value_In; [exact Hnd'|].
    apply (Permutation_in _ P).
    apply last_value_split in E as (before & after & -> & _). apply in_elt.
  - destruct (last_value k l') as [v|] eqn:E'; [|reflexivity].
    apply last_value_split in E' as (before & after & E' & _).
    assert (Hin : In (k, v) l)
      by (apply (Permutation_in _ (Permutation_sym P)); rewrite E'; apply in_elt).
    apply (last_value_In _ _ _ Hnd) in Hin. congruence.
Qed.

End SeriesFacts.

(** X10.  When no two fetched rows have the same date, the payload of the
    precipitation route does not depend on how [sort_values] orders the
    frame: any two sorts that rearrange the rows give the same payload. *)
Theorem precipitation_unique_dates_sort_free
  (sort1 sort2 : list prcp_record -> list prcp_record)
  (db : Dataset) (since : Calendar.datetime) :
  (forall l, Permutation (sort1 l) l) ->
  (forall l, Permutation (sort2 l) l) ->
  last_year other_digit db = Ok since ->
  NoDup (map date (window_rows since db)) ->
  precipitation other_digit sort1 db = precipitation other_digit sort2 db.
Proof.
  intros P1 P2 Hsince Hnd. unfold precipitation. rewrite Hsince. cbn [bind].
  unfold json_of_frame_dict, to_dict.
  cbn [sort_keys fold_right insert_by_key map fst snd].
  unfold json_of_series, prcp_df.
  assert (Hnd' : NoDup (map fst (last_year_records since db))).
  { unfold last_year_records. rewrite map_map. exact Hnd. }
  rewrite (series_determined (sort1 (last_year_records since db))
                             (sort2 (last_year_records since db)));
    [reflexivity|].
  intros k.
  rewrite <- (last_value_perm k _ _ Hnd' (Permutation_sym (P1 _))).
  now rewrite <- (last_value_perm k _ _ Hnd' (Permutation_sym (P2 _))).
Qed.

(** [stable_sort_values] keeps the rows of each date in their order. *)
Lemma rows_of_app {V : Type} (k : string) (l l' : list (string * V)) :
  rows_of k (l ++ l') = (rows_of k l ++ rows_of k l')%list.
Proof. apply filter_app. Qed.







(** ** Date texts and calendar order *)

Lemma compare_app (a a' b b' : string) :
  String.length a = String.length a' ->
  String.compare (a ++ b) (a' ++ b')
  = match String.compare a a' with
    | Eq => String.compare b b'
    | o => o
    end.
Proof.
  revert a'. induction a as [|x a IH]; intros [|x' a']; simpl;
    try discriminate; [reflexivity|].
  intros H. injection H as H.
  destruct (Ascii.compare x x'); [now apply IH | reflexivity | reflexivity].
Qed.

Lemma digit_char_code (n : Z) :
  N_of_ascii (Calendar.digit_char n) = Z.to_N (48 + n mod 10).
Proof.
  unfold Calendar.digit_char. apply N_ascii_embedding.
  pose proof (Z.mod_pos_bound n 10 ltac:(lia)). lia.
Qed.

Lemma digit_char_compare (n n' : Z) :
  Ascii.compare (Calendar.digit_char n) (Calendar.digit_char n')
  = (n mod 10 ?= n' mod 10)%Z.
Proof.
  unfold Ascii.compare. rewrite !digit_char_code.
  pose proof (Z.mod_pos_bound n 10 ltac:(lia)).
  pose proof (Z.mod_pos_bound n' 10 ltac:(lia)).
  rewrite Z2N.inj_compare by lia.
  destruct (Z.compare_spec (n mod 10) (n' mod 10));
    [apply Z.compare_eq_iff | apply Z.compare_lt_iff | apply Z.compare_gt_iff];
    lia.
Qed.

(** Zero-padded numbers of one width compare as the numbers do. *)
Lemma zero_padded_compare (width : nat) (n n' : Z) :
  (0 <= n < 10 ^ Z.of_nat width)%Z -> (0 <= n' < 10 ^ Z.of_nat width)%Z ->
  String.compare (Calendar.zero_padded width n) (Calendar.zero_padded width n')
  = (n ?= n')%Z.
Proof.
  revert n n'. induction width as [|w IH]; intros n n' Hn Hn'.
  - cbn in Hn, Hn'. assert (n = 0%Z) by lia. assert (n' = 0%Z) by lia.
    subst. reflexivity.
  - rewrite Nat2Z.inj_succ, Z.pow_succ_r in Hn, Hn' by lia.
    cbn [Calendar.zero_padded].
    rewrite compare_app by now rewrite !zero_padded_length.
    rewrite IH by (split; [apply Z.div_pos | apply Z.div_lt_upper_bound]; lia).
    cbn [String.compare]. rewrite digit_char_compare.
    destruct (Z.compare_spec (n / 10) (n' / 10)) as [E|L|G];
      [destruct (Z.compare_spec (n mod 10) (n' mod 10)) as [E'|L'|G']| |];
      symmetry;
      [apply Z.compare_eq_iff | apply Z.compare_lt_iff | apply Z.compare_gt_iff
      | apply Z.compare_lt_iff | apply Z.compare_gt_iff];
      Z.div_mod_to_equations; lia.
Qed.

Lemma date_text_compare (a b : Calendar.datetime) :
  valid_date a -> valid_date b ->
  String.compare (Calendar.date_text a) (Calendar.date_text b) = ymd_compare a b.
Proof.
  intros (Hy & Hm & Hd) (Hy' & Hm' & Hd').
  assert (Hda : (Calendar.day a <= 31)%Z).
  { destruct (month_tables _ Hm) as [_ Hi]. unfold Calendar.days_in_month in Hd.
    destruct (_ && _) in Hd; lia. }
  assert (Hdb : (Calendar.day b <= 31)%Z).
  { destruct (month_tables _ Hm') as [_ Hi]. unfold Calendar.days_in_month in Hd'.
    destruct (_ && _) in Hd'; lia. }
  unfold Calendar.date_text, ymd_compare.
  rewrite compare_app by now rewrite !zero_padded_length.
  rewrite zero_padded_compare by (cbn; lia).
  destruct (Calendar.year a ?= Calendar.year b)%Z; try reflexivity.
  change ("-" ++ ?x) with (String "-" x). cbn [String.compare].
  change (Ascii.compare "-" "-") with Eq. cbn iota.
  rewrite compare_app by now rewrite !zero_padded_length.
  rewrite zero_padded_compare by (cbn; lia).
  destruct (Calendar.month a ?= Calendar.month b)%Z; try reflexivity.
  cbn [String.append String.compare].
  change (Ascii.compare "-" "-") with Eq. cbn iota.
  apply zero_padded_compare; cbn; lia.
Qed.

Lemma month_cases (m : Z) :
  (1 <= m <= 12)%Z -> In m [1; 2; 3; 4; 5; 6; 7; 8; 9; 10; 11; 12]%Z.
Proof. intros H. simpl. lia. Qed.

Ltac each_month H :=
  apply month_cases in H; cbn [In] in H;
  repeat (destruct H as [<-|H]); [..|destruct H].

(** The days of a year before the end of a month, and of the whole year. *)
Lemma month_end_bound (leap : bool) (m : Z) :
  (1 <= m <= 12)%Z ->
  (Calendar.index Calendar.DAYS_BEFORE_MONTH m
   + (if (2 <? m) && leap then 1 else 0)
   + (if (m =? 2) && leap then 29 else Calendar.index Calendar.DAYS_IN_MONTH m)
   <= 365 + (if leap then 1 else 0))%Z
  /\ (0 <= Calendar.index Calendar.DAYS_BEFORE_MONTH m
           + (if (2 <? m) && leap then 1 else 0))%Z.
Proof.
  intros H. each_month H; destruct leap; vm_compute; intuition discriminate.
Qed.

Lemma month_step (leap : bool) (m m' : Z) :
  (1 <= m <= 12)%Z -> (1 <= m' <= 12)%Z -> (m < m')%Z ->
  (Calendar.index Calendar.DAYS_BEFORE_MONTH m
   + (if (2 <? m) && leap then 1 else 0)
   + (if (m =? 2) && leap then 29 else Calendar.index Calendar.DAYS_IN_MONTH m)
   <= Calendar.index Calendar.DAYS_BEFORE_MONTH m'
      + (if (2 <? m') && leap then 1 else 0))%Z.
Proof.
  intros H H' L. each_month H; each_month H'; try lia;
    destruct leap; vm_compute; discriminate.
Qed.

Lemma next_year (y : Z) :
  Calendar.days_before_year (y + 1)
  = (Calendar.days_before_year y + 365
     + (if Calendar.is_leap y then 1 else 0))%Z.
Proof.
  unfold Calendar.days_before_year, Calendar.is_leap.
  repeat match goal with
         | |- context [(?a mod ?b =? 0)%Z] => destruct (Z.eqb_spec (a mod b) 0)
         end; cbn [andb orb negb]; Z.div_mod_to_equations; lia.
Qed.

Lemma days_before_year_mono (y y' : Z) :
  (y <= y')%Z -> (Calendar.days_before_year y <= Calendar.days_before_year y')%Z.
Proof.
  intros H. unfold Calendar.days_before_year. Z.div_mod_to_equations. lia.
Qed.

Lemma ymd_lt_ordinal (a b : Calendar.datetime) :
  valid_date a -> valid_date b -> ymd_compare a b = Lt ->
  (Calendar.toordinal a < Calendar.toordinal b)%Z.
Proof.
  intros (Hy & Hm & Hd) (Hy' & Hm' & Hd') H.
  unfold ymd_compare in H.
  unfold Calendar.toordinal, Calendar.ymd2ord, Calendar.days_before_month,
    Calendar.days_in_month in *.
  destruct (Z.compare_spec (Calendar.year a) (Calendar.year b)) as [Ey|Ly|Gy];
    try discriminate.
  - rewrite Ey in *.
    destruct (Z.compare_spec (Calendar.month a) (Calendar.month b)) as [Em|Lm|Gm];
      try discriminate.
    + rewrite Em. change (Calendar.day a < Calendar.day b)%Z in H. lia.
    + pose proof (month_step (Calendar.is_leap (Calendar.year b)) _ _ Hm Hm' Lm).
      lia.
  - pose proof (month_end_bound (Calendar.is_leap (Calendar.year a)) _ Hm) as [Ha _].
    pose proof (month_end_bound (Calendar.is_leap (Calendar.year b)) _ Hm') as [_ Hb].
    pose proof (next_year (Calendar.year a)) as Hn.
    pose proof (days_before_year_mono (Calendar.year a + 1) (Calendar.year b)
                  ltac:(lia)).
    lia.
Qed.

Lemma ymd_compare_antisym (a b : Calendar.datetime) :
  ymd_compare b a = CompOpp (ymd_compare a b).
Proof.
  unfold ymd_compare.
  rewrite (Z.compare_antisym (Calendar.year a)),
    (Z.compare_antisym (Calendar.month a)), (Z.compare_antisym (Calendar.day a)).
  destruct (Calendar.year a ?= Calendar.year b)%Z; try reflexivity.
  cbn. now destruct (Calendar.month a ?= Calendar.month b)%Z.
Qed.

(** Ordinals of dates compare as the dates do. *)
Lemma toordinal_compare (a b : Calendar.datetime) :
  valid_date a -> valid_date b ->
  (Calendar.toordinal a ?= Calendar.toordinal b)%Z = ymd_compare a b.
Proof.
  intros Ha Hb. destruct (ymd_compare a b) eqn:E.
  - apply Z.compare_eq_iff. unfold ymd_compare in E.
    destruct (Z.compare_spec (Calendar.year a) (Calendar.year b)) as [Ey|?|?];
      try discriminate.
    destruct (Z.compare_spec (Calendar.month a) (Calendar.month b)) as [Em|?|?];
      try discriminate.
    apply Z.compare_eq_iff in E. unfold Calendar.toordinal. now rewrite Ey, Em, E.
  - apply Z.compare_lt_iff. now apply ymd_lt_ordinal.
  - apply Z.compare_gt_iff. apply ymd_lt_ordinal; auto.
    rewrite ymd_compare_antisym, E. reflexivity.
Qed.

(** The texts of two dates compare as their ordinals do. *)
Lemma date_text_order (a b : Calendar.datetime) :
  valid_date a -> valid_date b ->
  String.compare (Calendar.date_text a) (Calendar.date_text b)
  = (Calendar.toordinal a ?= Calendar.toordinal b)%Z.
Proof.
  intros Ha Hb. now rewrite date_text_compare, toordinal_compare.
Qed.

(** ** Texts that pass the check and are dates *)

Lemma digit_value_spec (c : ascii) :
  is_digit c ->
  exists v, (0 <= v <= 9)%Z /\ Calendar.digit_value c = Some v
            /\ c = Calendar.digit_char v.
Proof.
  unfold is_digit, Calendar.digit_value, Calendar.digit_char. intros H.
  exists (Z.of_N (N_of_ascii c) - 48)%Z.
  assert (L1 : (48 <=? Z.of_N (N_of_ascii c))%Z = true) by (apply Z.leb_le; lia).
  assert (L2 : (Z.of_N (N_of_ascii c) <=? 57)%Z = true) by (apply Z.leb_le; lia).
  cbv zeta. rewrite L1, L2. cbn [andb]. split; [lia|]. split; [reflexivity|].
  rewrite Z.mod_small by lia.
  replace (48 + (Z.of_N (N_of_ascii c) - 48))%Z with (Z.of_N (N_of_ascii c)) by lia.
  now rewrite N2Z.id, ascii_N_embedding.
Qed.

Lemma digit_char_mod (a b : Z) :
  (a mod 10 = b mod 10)%Z -> Calendar.digit_char a = Calendar.digit_char b.
Proof. unfold Calendar.digit_char. now intros ->. Qed.

Lemma zero_padded_two (a b : Z) :
  (0 <= a <= 9)%Z -> (0 <= b <= 9)%Z ->
  Calendar.zero_padded 2 (10 * a + b)
  = String (Calendar.digit_char a) (String (Calendar.digit_char b) EmptyString).
Proof.
  intros Ha Hb. cbn [Calendar.zero_padded String.append].
  repeat (apply (f_equal2 String);
          [apply digit_char_mod; Z.div_mod_to_equations; lia|]).
  reflexivity.
Qed.

Lemma zero_padded_four (a b c d : Z) :
  (0 <= a <= 9)%Z -> (0 <= b <= 9)%Z -> (0 <= c <= 9)%Z -> (0 <= d <= 9)%Z ->
  Calendar.zero_padded 4 (100 * (10 * a + b) + (10 * c + d))
  = String (Calendar.digit_char a) (String (Calendar.digit_char b)
      (String (Calendar.digit_char c) (String (Calendar.digit_char d) EmptyString))).
Proof.
  intros Ha Hb Hc Hd. cbn [Calendar.zero_padded String.append].
  repeat (apply (f_equal2 String);
          [apply digit_char_mod; Z.div_mod_to_equations; lia|]).
  reflexivity.
Qed.

Lemma p_two_digits (lo1 hi1 lo2 hi2 : Z) (c1 c2 : ascii) (v1 v2 : Z) (rest : string) :
  Calendar.digit_value c1 = Some v1 -> Calendar.digit_value c2 = Some v2 ->
  Calendar.p_two lo1 hi1 lo2 hi2 (String c1 (String c2 rest))
  = if ((lo1 <=? v1) && (v1 <=? hi1))%Z && ((lo2 <=? v2) && (v2 <=? hi2))%Z
    then Some ((10 * v1 + v2)%Z, rest) else None.
Proof.
  intros H1 H2. unfold Calendar.p_two, Calendar.p_digit. rewrite H1.
  destruct ((lo1 <=? v1)%Z && (v1 <=? hi1)%Z); [|reflexivity].
  rewrite H2. now destruct ((lo2 <=? v2)%Z && (v2 <=? hi2)%Z).
Qed.

Lemma p_digit_digit (lo hi : Z) (c : ascii) (v : Z) (rest : string) :
  Calendar.digit_value c = Some v ->
  Calendar.p_digit lo hi (String c rest)
  = if ((lo <=? v) && (v <=? hi))%Z then Some (v, rest) else None.
Proof. intros H. unfold Calendar.p_digit. now rewrite H. Qed.

Lemma p_char_digit (ch c : ascii) (v : Z) (rest : string) :
  Calendar.digit_value c = Some v -> Calendar.digit_value ch = None ->
  Calendar.p_char ch (String c rest) = None.
Proof.
  intros H1 H2. unfold Calendar.p_char.
  destruct (Ascii.eqb ch c) eqn:E; [|reflexivity].
  apply Ascii.eqb_eq in E. subst. congruence.
Qed.

Lemma p_decimal_digit (c : ascii) (v : Z) (rest : string) :
  Calendar.digit_value c = Some v ->
  Calendar.p_decimal other_digit (String c rest) = Some (v, rest).
Proof. intros H. unfold Calendar.p_decimal. now rewrite H. Qed.

Lemma p_pair_decimal_digits (c1 c2 : ascii) (v1 v2 : Z) (rest : string) :
  Calendar.digit_value c1 = Some v1 -> Calendar.digit_value c2 = Some v2 ->
  Calendar.p_pair (Calendar.p_decimal other_digit) (Calendar.p_decimal other_digit)
                  (String c1 (String c2 rest))
  = Some ((10 * v1 + v2)%Z, rest).
Proof.
  intros H1 H2. unfold Calendar.p_pair.
  now rewrite (p_decimal_digit c1 v1), (p_decimal_digit c2 v2).
Qed.

Lemma p_year_digits (c1 c2 c3 c4 : ascii) (v1 v2 v3 v4 : Z) (rest : string) :
  Calendar.digit_value c1 = Some v1 -> Calendar.digit_value c2 = Some v2 ->
  Calendar.digit_value c3 = Some v3 -> Calendar.digit_value c4 = Some v4 ->
  Calendar.p_year other_digit (String c1 (String c2 (String c3 (String c4 rest))))
  = Some ((100 * (10 * v1 + v2) + (10 * v3 + v4))%Z, rest).
Proof.
  intros H1 H2 H3 H4. unfold Calendar.p_year.
  now rewrite (p_pair_decimal_digits c1 c2 v1 v2), (p_pair_decimal_digits c3 c4 v3 v4).
Qed.

(** With two digits ahead, the month and the day patterns take both
    digits or leave the second one unread. *)
Lemma p_month_digits (c1 c2 : ascii) (v1 v2 : Z) (rest : string) (m : Z)
  (rem : string) :
  Calendar.digit_value c1 = Some v1 -> Calendar.digit_value c2 = Some v2 ->
  Calendar.p_month (String c1 (String c2 rest)) = Some (m, rem) ->
  (m = (10 * v1 + v2)%Z /\ rem = rest) \/ rem = String c2 rest.
Proof.
  intros H1 H2. unfold Calendar.p_month. cbn [Calendar.p_alt].
  rewrite (p_two_digits 1 1 0 2 c1 c2 v1 v2), (p_two_digits 0 0 1 9 c1 c2 v1 v2),
    (p_digit_digit 1 9 c1 v1) by assumption.
  repeat match goal with
         | |- context [if ?b then _ else _] => destruct b
         end; intros H; try discriminate H; injection H as <- <-; auto.
Qed.

Lemma p_class_decimal_digits (lo hi : Z) (c1 c2 : ascii) (v1 v2 : Z)
  (rest : string) :
  Calendar.digit_value c1 = Some v1 -> Calendar.digit_value c2 = Some v2 ->
  Calendar.p_pair (Calendar.p_digit lo hi) (Calendar.p_decimal other_digit)
                  (String c1 (String c2 rest))
  = if ((lo <=? v1) && (v1 <=? hi))%Z then Some ((10 * v1 + v2)%Z, rest) else None.
Proof.
  intros H1 H2. unfold Calendar.p_pair. rewrite (p_digit_digit lo hi c1 v1 _ H1).
  destruct ((lo <=? v1)%Z && (v1 <=? hi)%Z); [|reflexivity].
  now rewrite (p_decimal_digit c2 v2).
Qed.

Lemma p_day_digits (c1 c2 : ascii) (v1 v2 : Z) (rest : string) (d : Z)
  (rem : string) :
  Calendar.digit_value c1 = Some v1 -> Calendar.digit_value c2 = Some v2 ->
  Calendar.p_day other_digit (String c1 (String c2 rest)) = Some (d, rem) ->
  (d = (10 * v1 + v2)%Z /\ rem = rest) \/ rem = String c2 rest.
Proof.
  intros H1 H2. unfold Calendar.p_day, Calendar.p_space_digit.
  cbn [Calendar.p_alt].
  rewrite (p_two_digits 3 3 0 1 c1 c2 v1 v2), (p_two_digits 0 0 1 9 c1 c2 v1 v2),
    (p_class_decimal_digits 1 2 c1 c2 v1 v2), (p_digit_digit 1 9 c1 v1),
    (p_char_digit " " c1 v1) by (assumption || reflexivity).
  repeat match goal with
         | |- context [if ?b then _ else _] => destruct b
         end; intros H; try discriminate H; injection H as <- <-; auto.
Qed.

(** A text that passes the date check and that [strptime] reads as a date
    is the ten-character text of that date. *)
Lemma checked_date_text (s : string) (t : Calendar.datetime) :
  date_format_ok s = true ->
  Calendar.strptime other_digit (Some s) = Ok t ->
  valid_date t /\ s = Calendar.date_text t.
Proof.
  intros Hok Hparse. apply date_format_ok_iff in Hok
    as (y1 & y2 & y3 & y4 & m1 & m2 & d1 & d2 & rest & Hd & ->).
  repeat match goal with
         | H : Forall _ (_ :: _) |- _ => inversion H; subst; clear H
         end.
  repeat match goal with
         | H : is_digit ?c |- _ =>
             let v := fresh "v" in
             apply digit_value_spec in H as (v & ? & ? & ?)
         end.
  unfold Calendar.strptime in Hparse.
  erewrite p_year_digits in Hparse by eassumption.
  cbn [Calendar.p_char] in Hparse.
  change (Ascii.eqb "-" "-") with true in Hparse. cbn iota in Hparse.
  destruct (Calendar.p_month _) as [[m rem]|] eqn:Em; [|discriminate].
  eapply p_month_digits in Em as [[Em Er]|Er]; try eassumption; subst rem.
  2:{ erewrite p_char_digit in Hparse by (eassumption || reflexivity).
      discriminate. }
  subst m.
  cbn [Calendar.p_char] in Hparse.
  change (Ascii.eqb "-" "-") with true in Hparse. cbn iota in Hparse.
  destruct (Calendar.p_day other_digit _) as [[d rem]|] eqn:Ed; [|discriminate].
  eapply p_day_digits in Ed as [[Ed Er]|Er]; try eassumption; subst rem;
    [|discriminate].
  subst d. destruct rest; [|discriminate].
  apply make_date_fields in Hparse as [-> Hvalid].
  split; [exact Hvalid|].
  unfold Calendar.date_text.
  cbn [Calendar.year Calendar.month Calendar.day].
  rewrite zero_padded_four, !zero_padded_two by assumption.
  subst. reflexivity.
Qed.

Lemma checked_texts_compare (a b : string) (ta tb : Calendar.datetime) :
  date_format_ok a = true -> date_format_ok b = true ->
  Calendar.strptime other_digit (Some a) = Ok ta -> Calendar.strptime other_digit (Some b) = Ok tb ->
  String.compare a b = (Calendar.toordinal ta ?= Calendar.toordinal tb)%Z.
Proof.
  intros Ha Hb Pa Pb.
  destruct (checked_date_text a ta Ha Pa) as [Va Ea].
  destruct (checked_date_text b tb Hb Pb) as [Vb Eb].
  rewrite Ea, Eb at 1. now apply date_text_order.
Qed.

(** X12.  For two texts that pass the date check and are calendar dates,
    the text comparisons the routes make are comparisons of days: the
    two-date route swaps start and end exactly when start is a later day
    than end, and the range filter keeps a row dated with such a text
    exactly when its day is from the start day to the end day, both
    included. *)
Theorem checked_dates_compare_as_days
  (a b : string) (ta tb : Calendar.datetime) :
  date_format_ok a = true -> date_format_ok b = true ->
  Calendar.strptime other_digit (Some a) = Ok ta -> Calendar.strptime other_digit (Some b) = Ok tb ->
  (Text.gt a b = true <-> (Calendar.toordinal tb < Calendar.toordinal ta)%Z)
  /\ (Text.le a b = true <-> (Calendar.toordinal ta <= Calendar.toordinal tb)%Z)
  /\ (ordered_range a b
      = if (Calendar.toordinal tb <? Calendar.toordinal ta)%Z
        then (b, a) else (a, b))
  /\ forall r tr,
      date_format_ok (date r) = true ->
      Calendar.strptime other_digit (Some (date r)) = Ok tr ->
      (in_range a (Some b) r = true
       <-> (Calendar.toordinal ta <= Calendar.toordinal tr
            <= Calendar.toordinal tb)%Z).
Proof.
  intros Ha Hb Pa Pb.
  pose proof (checked_texts_compare a b ta tb Ha Hb Pa Pb) as Eab.
  pose proof (checked_texts_compare b a tb ta Hb Ha Pb Pa) as Eba.
  assert (Hgt : Text.gt a b = true
                <-> (Calendar.toordinal tb < Calendar.toordinal ta)%Z).
  { unfold Text.gt, String.ltb. rewrite Eba.
    destruct (Z.compare_spec (Calendar.toordinal tb) (Calendar.toordinal ta));
      split; intros; (discriminate || lia || reflexivity). }
  assert (Hle : forall x y tx ty,
             String.compare x y
             = (Calendar.toordinal tx ?= Calendar.toordinal ty)%Z ->
             (Text.le x y = true
              <-> (Calendar.toordinal tx <= Calendar.toordinal ty)%Z)).
  { intros x y tx ty E. unfold Text.le, String.leb. rewrite E.
    destruct (Z.compare_spec (Calendar.toordinal tx) (Calendar.toordinal ty));
      split; intros; (discriminate || lia || reflexivity). }
  split; [exact Hgt|]. split; [now apply Hle|]. split.
  - unfold ordered_range.
    destruct (Text.gt a b).
    + pose proof (proj1 Hgt eq_refl) as L. apply Z.ltb_lt in L. now rewrite L.
    + destruct (Z.ltb_spec (Calendar.toordinal tb) (Calendar.toordinal ta)) as [L|_];
        [|reflexivity].
      pose proof (proj2 Hgt L). discriminate.
  - intros r tr Hr Pr. cbn [in_range]. rewrite andb_true_iff.
    rewrite (Hle a (date r) ta tr), (Hle (date r) b tr tb);
      [tauto | now apply checked_texts_compare | now apply checked_texts_compare].
Qed.

(** ** The window in days *)

Lemma year_of_ordinal (t : Calendar.datetime) :
  (1 <= Calendar.toordinal t <= Calendar.MAXORDINAL)%Z ->
  (1 <= Calendar.month t <= 12
   /\ 1 <= Calendar.day t
      <= Calendar.days_in_month (Calendar.year t) (Calendar.month t))%Z ->
  valid_date t.
Proof.
  intros Hord [Hm Hd]. unfold valid_date. split; [|now split].
  unfold Calendar.toordinal, Calendar.ymd2ord, Calendar.days_before_month,
    Calendar.days_in_month, Calendar.MAXORDINAL in *.
  pose proof (month_end_bound (Calendar.is_leap (Calendar.year t)) _ Hm) as [Hend Hpos].
  assert (E0 : Calendar.days_before_year 0 = (-366)%Z) by reflexivity.
  assert (E1 : Calendar.days_before_year 10000 = 3652059%Z) by reflexivity.
  destruct (Calendar.is_leap (Calendar.year t));
    rewrite ?andb_true_r, ?andb_false_r in *;
    (split;
     [ destruct (Z_le_gt_dec (Calendar.year t) 0) as [L|G]; [|lia]
     | destruct (Z_le_gt_dec 10000 (Calendar.year t)) as [L|G]; [|lia] ];
     pose proof (days_before_year_mono _ _ L); lia).
Qed.

(** ** The text of a date, read back *)

Lemma digit_value_char (v : Z) :
  Calendar.digit_value (Calendar.digit_char v) = Some (v mod 10)%Z.
Proof.
  unfold Calendar.digit_value. rewrite digit_char_code.
  pose proof (Z.mod_pos_bound v 10 ltac:(lia)) as H.
  rewrite Z2N.id by lia. cbv zeta.
  replace (48 <=? 48 + v mod 10)%Z with true by (symmetry; apply Z.leb_le; lia).
  replace (48 + v mod 10 <=? 57)%Z with true by (symmetry; apply Z.leb_le; lia).
  cbn [andb]. f_equal. lia.
Qed.

Lemma p_year_text (y : Z) (rest : string) :
  (0 <= y <= 9999)%Z ->
  Calendar.p_year other_digit (Calendar.zero_padded 4 y ++ rest) = Some (y, rest).
Proof.
  intros H. cbn [Calendar.zero_padded String.append].
  erewrite p_year_digits by apply digit_value_char.
  do 2 f_equal. Z.div_mod_to_equations. lia.
Qed.

Lemma p_month_text (m : Z) (rest : string) :
  (1 <= m <= 12)%Z ->
  Calendar.p_month (Calendar.zero_padded 2 m ++ rest) = Some (m, rest).
Proof. intros H. each_month H; reflexivity. Qed.

Lemma p_day_text (d : Z) :
  (1 <= d <= 31)%Z ->
  Calendar.p_day other_digit (Calendar.zero_padded 2 d) = Some (d, EmptyString).
Proof.
  intros H.
  assert (Hd : In d (map Z.of_nat (seq 1 31))).
  { apply in_map_iff. exists (Z.to_nat d). split; [lia|]. apply in_seq. lia. }
  cbv in Hd. repeat (destruct Hd as [<-|Hd]; [reflexivity|]). destruct Hd.
Qed.

Lemma make_date_valid (y m d : Z) :
  valid_date (midnight y m d) -> Calendar.make_date y m d = Ok (midnight y m d).
Proof.
  unfold valid_date, midnight, Calendar.make_date, Calendar.MINYEAR,
    Calendar.MAXYEAR.
  cbn [Calendar.year Calendar.month Calendar.day]. intros (Hy & Hm & Hd).
  replace ((1 <=? y) && (y <=? 9999) && (1 <=? m) && (m <=? 12) && (1 <=? d)
           && (d <=? Calendar.days_in_month y m))%Z with true; [reflexivity|].
  symmetry. rewrite !andb_true_iff, !Z.leb_le. lia.
Qed.

(** [strptime] reads the ten-character text of a date as that date. *)
Lemma strptime_date_text (y m d : Z) :
  valid_date (midnight y m d) ->
  Calendar.strptime other_digit (Some (Calendar.date_text (midnight y m d)))
  = Ok (midnight y m d).
Proof.
  intros V. pose proof V as (Hy & Hm & Hd).
  cbn [midnight Calendar.year Calendar.month Calendar.day] in Hy, Hm, Hd.
  assert (Hd31 : (d <= 31)%Z).
  { destruct (month_tables _ Hm) as [_ Hi]. unfold Calendar.days_in_month in Hd.
    destruct (_ && _) in Hd; lia. }
  unfold Calendar.strptime, Calendar.date_text.
  cbn [midnight Calendar.year Calendar.month Calendar.day].
  rewrite p_year_text by lia.
  cbn [String.append Calendar.p_char].
  change (Ascii.eqb "-" "-") with true. cbn iota.
  rewrite p_month_text by lia.
  cbn [String.append Calendar.p_char].
  change (Ascii.eqb "-" "-") with true. cbn iota.
  rewrite p_day_text by lia.
  now apply make_date_valid.
Qed.

(** C6.  On a table whose greatest date text is the YYYY-MM-DD text of a
    calendar date after year 1, that text is the latest date, and the
    window start is the datetime at midnight of the calendar day exactly
    365 days before it. *)
Theorem last_year_365_days_before
  (db : Dataset) (r0 : Measurement) (y m d : Z) :
  In r0 db ->
  (forall r, In r db -> Text.le (date r) (date r0) = true) ->
  valid_date (midnight y m d) ->
  date r0 = Calendar.date_text (midnight y m d) ->
  (365 < Calendar.ymd2ord y m d)%Z ->
  latest_date db = Some (date r0)
  /\ exists since,
      last_year other_digit db = Ok since
      /\ Calendar.toordinal since = (Calendar.ymd2ord y m d - 365)%Z
      /\ valid_date since
      /\ Calendar.hour since = 0%Z /\ Calendar.minute since = 0%Z
      /\ Calendar.second since = 0%Z /\ Calendar.microsecond since = 0%Z.
Proof.
  intros Hin Hmax V Etext Hord.
  assert (Elatest : latest_date db = Some (date r0)).
  { destruct db as [|r1 db']; [destruct Hin|].
    destruct (latest_date_max (r1 :: db') ltac:(discriminate))
      as (latest & E & Hmem & Hle).
    rewrite E. f_equal. apply in_map_iff in Hmem as (r & <- & Hr).
    apply String.leb_antisym; [now apply Hmax | now apply Hle]. }
  split; [exact Elatest|].
  pose proof (make_date_valid y m d V) as Hmk.
  pose proof (toordinal_range _ _ _ _ Hmk) as Hrange.
  destruct (sub_days_midnight y m d 365 (midnight y m d) Hmk)
    as (since & Esub & Eord & Hvalid & Htime).
  { unfold Calendar.toordinal. cbn [midnight Calendar.year Calendar.month
                                     Calendar.day]. lia. }
  change (Calendar.toordinal (midnight y m d))
    with (Calendar.ymd2ord y m d) in Eord, Hrange.
  exists since. split.
  { unfold last_year. rewrite Elatest, Etext, strptime_date_text by exact V.
    exact Esub. }
  split; [exact Eord|]. split; [|exact Htime].
  apply year_of_ordinal; [|exact Hvalid].
  rewrite Eord. unfold Calendar.MAXORDINAL in *. lia.
Qed.

(** X13.  On a table whose latest date is a calendar date after year 1,
    a row whose date passes the date check and is a calendar date is in
    the window exactly when its day is later than the day 365 days before
    the latest date: the window is the 365 days that end with the latest
    date, and the rows dated the latest date are always in it. *)
Theorem window_is_the_last_365_days
  (db : Dataset) (latest : string) (t : Calendar.datetime) :
  latest_date db = Some latest ->
  Calendar.strptime other_digit (Some latest) = Ok t ->
  (365 < Calendar.toordinal t)%Z ->
  exists since,
    last_year other_digit db = Ok since
    /\ forall r tr,
        In r db ->
        date_format_ok (date r) = true ->
        Calendar.strptime other_digit (Some (date r)) = Ok tr ->
        (In r (window_rows since db)
         <-> (Calendar.toordinal t - 365 < Calendar.toordinal tr)%Z)
        /\ (date r = latest -> In r (window_rows since db)).
Proof.
  intros Elatest Hparse Hord.
  pose proof Hparse as Hmk. apply strptime_date in Hmk as (y & m & d & Hmk).
  pose proof (toordinal_range _ _ _ _ Hmk) as Hrange.
  destruct (sub_days_midnight y m d 365 t Hmk ltac:(lia))
    as (since & Esub & Eord & Hvalid & _).
  assert (Vsince : valid_date since).
  { apply year_of_ordinal; [|exact Hvalid].
    rewrite Eord. unfold Calendar.MAXORDINAL in *. lia. }
  exists since. split.
  { unfold last_year. rewrite Elatest, Hparse. exact Esub. }
  intros r tr Hr Hok Pr.
  destruct (checked_date_text _ _ Hok Pr) as [Vr Er].
  assert (Hiff : In r (window_rows since db)
                 <-> (Calendar.toordinal t - 365 < Calendar.toordinal tr)%Z).
  { unfold window_rows. rewrite filter_In.
    rewrite in_window_strictly_after by (rewrite Er; apply date_text_length).
    unfold Text.lt, String.ltb. rewrite Er at 1.
    rewrite (date_text_order since tr Vsince Vr), Eord.
    destruct (Z.compare_spec (Calendar.toordinal t - 365) (Calendar.toordinal tr));
      split; intros; try tauto; try lia; try (split; [exact Hr | reflexivity]);
      destruct H0; discriminate. }
  split; [exact Hiff|].
  intros E. apply Hiff. rewrite E in Pr. rewrite Hparse in Pr.
  injection Pr as <-. lia.
Qed.

(** ** Both ends of a range count *)

(** X14.  The range of [calc_temps] includes its ends: a row with a
    reading that is dated the start date, or the end date, of a range
    whose start is not after its end is among the rows aggregated, so the
    result is not empty and the reading lies between its minimum and its
    maximum. *)
Theorem range_ends_included
  (db : Dataset) (start_date end_date : string) (r : Measurement) (v : Q) :
  In r db -> tobs r = Some v ->
  Text.le start_date end_date = true ->
  date r = start_date \/ date r = end_date ->
  exists lo mean hi,
    calc_temps sqlite_avg db start_date (Some end_date) = [(Some lo, Some mean, Some hi)]
    /\ (lo <= v <= hi)%Q.
Proof.
  intros Hin Hv Hle Hdate. apply readings_nonempty.
  apply non_null_In. rewrite <- Hv. apply in_map, filter_In.
  split; [exact Hin|]. cbn [in_range].
  destruct Hdate as [-> | ->]; rewrite Hle, le_refl; reflexivity.
Qed.

(** ** How many stations *)

(** X15.  The stations route returns no more entries than the table has
    rows, and an empty list exactly when the table is empty. *)
Theorem stations_count (db : Dataset) :
  (List.length (station_names db) <= List.length db)%nat
  /\ (stations db = Jsonify (JArr []) <-> db = []).
Proof.
  destruct (station_names_spec db) as [Hnd Hin]. split.
  - rewrite <- (length_map station db).
    apply NoDup_incl_length; [exact Hnd|]. intros s Hs. now apply Hin.
  - split.
    + unfold stations. intros H. injection H as H.
      destruct db as [|r db]; [reflexivity|].
      assert (Hr : In (station r) (station_names (r :: db)))
        by (apply Hin; now left).
      destruct (station_names (r :: db)); [destruct Hr | discriminate].
    + intros ->. reflexivity.
Qed.

(** ** Dates on which the stations agree *)

Lemma last_value_some {V : Type} (k : string) (l : list (string * V)) :
  In k (map fst l) -> exists v, last_value k l = Some v.
Proof.
  induction l as [|[k' v'] l IH]; simpl; [intros []|].
  intros H. destruct (last_value k l) as [x|] eqn:E; [eauto|].
  destruct H as [->|H]; [rewrite String.eqb_refl; eauto|].
  destruct (IH H) as (v & Hv). discriminate.
Qed.

(** X16.  Whatever the order [sort_values] gives the rows of one date, a
    date on which all fetched rows carry the same amount (so any date
    fetched from one station only) has that amount in the payload of the
    precipitation route. *)
Theorem precipitation_agreed_amount
  (sort_values : list prcp_record -> list prcp_record)
  (db : Dataset) (since : Calendar.datetime) (r : Measurement) :
  (forall l, Permutation (sort_values l) l) ->
  last_year other_digit db = Ok since ->
  In r (window_rows since db) ->
  (forall r', In r' (window_rows since db) -> date r' = date r ->
              prcp r' = prcp r) ->
  exists series : list (string * option Q),
    precipitation other_digit sort_values db
    = Ok (Jsonify
            (JObj [("Precipitation",
                    JObj (map (fun kv =>
                                 (fst kv,
                                  json_of_amount
                                    (numeric_column
                                       (last_year_records since db))
                                    (snd kv)))
                              series))]))
    /\ In (date r, prcp r) series.
Proof.
  intros Hperm Hsince Hr Hagree.
  set (frame := prcp_df sort_values since db).
  exists (sort_keys (dict_of_pairs frame)). split.
  { unfold precipitation. rewrite Hsince. reflexivity. }
  destruct (dict_of_pairs_spec frame) as (_ & _ & Hget).
  assert (Hkey : In (date r) (map fst frame)).
  { subst frame. unfold prcp_df.
    apply (perm_in_iff _ _ _ (Permutation_map fst (Hperm _))).
    apply records_dates. eauto. }
  destruct (last_value_some _ _ Hkey) as (p & Hp).
  assert (Hin : In (date r, p) (last_year_records since db)).
  { apply last_value_split in Hp as (before & after & E & _).
    apply (Permutation_in _ (Hperm _)). fold (prcp_df sort_values since db).
    fold frame. rewrite E. apply in_elt. }
  unfold last_year_records in Hin. apply in_map_iff in Hin as (r' & E & Hr').
  injection E as Ed Ep. rewrite (Hagree r' Hr' Ed) in Ep. subst p.
  apply (Permutation_in _ (Permutation_sym (sort_keys_perm _))).
  apply dict_get_Some_In. now rewrite Hget.
Qed.

End Properties.

(** * The properties on sample tables *)

(** C1 as stated fails: the row of 2016-08-24 satisfies the range predicate
    but has no temperature, and the result is empty, whatever [avg]
    computes. *)
Lemma calc_temps_empty_with_row_in_range :
  (forall sqlite_avg,
      calc_temps sqlite_avg sample_db "2016-08-24" (Some "2016-08-24") = [])
  /\ exists r, In r sample_db
               /\ in_range "2016-08-24" (Some "2016-08-24") r = true.
Proof.
  split; [reflexivity|].
  exists (row "USC00519397" "2016-08-24" (Some 0.2%Q) None).
  split; [right; left; reflexivity | reflexivity].
Qed.

Lemma calc_temps_empty_iff_no_reading_witness :
  calc_temps exact_avg sample_db "2016-08-24" (Some "2016-08-24") = [].
Proof.
  apply (proj1 (calc_temps_empty_iff_no_reading
                  exact_avg sample_db "2016-08-24" (Some "2016-08-24"))).
  intros r Hin. simpl in Hin.
  repeat (destruct Hin as [<-|Hin];
          [vm_compute; intros H; (reflexivity || discriminate H)|]).
  destruct Hin.
Defined.

Lemma date_check_and_messages_witness :
  calc_temps_start_end exact_avg sample_db "abc" "2010-01-01"
  = Text (invalid_range_message "abc" "2010-01-01").
Proof.
  apply (date_check_and_messages exact_avg sample_db "abc" "2010-01-01").
  left. intros H. apply date_format_ok_iff in H. discriminate H.
Defined.

(** C2 as stated fails: the text of the two-date route does not say which
    value failed.  With a bad start and a good end it quotes the good end
    as it quotes the bad start. *)
Lemma invalid_range_message_quotes_valid_end :
  ~ exists sqlite_avg,
      forall start end_ msg,
        date_format_ok start = false \/ date_format_ok end_ = false ->
        calc_temps_start_end sqlite_avg sample_db start end_ = Text msg ->
        (Text.contains (Text.quoted start) msg <-> date_format_ok start = false)
        /\ (Text.contains (Text.quoted end_) msg
            <-> date_format_ok end_ = false).
Proof.
  intros [sqlite_avg H].
  destruct (H "abc" "2010-01-01" (invalid_range_message "abc" "2010-01-01")
              (or_introl eq_refl) eq_refl) as [_ [Hend _]].
  assert (E : date_format_ok "2010-01-01" = false)
    by (apply Hend, invalid_range_names).
  discriminate E.
Qed.

Lemma reversed_range_same_aggregation_witness :
  ordered_range "2017-08-23" "2017-08-01" = ("2017-08-01", "2017-08-23")
  /\ calc_temps_start_end exact_avg sample_db "2017-08-23" "2017-08-01"
     = calc_temps_start_end exact_avg sample_db "2017-08-01" "2017-08-23".
Proof.
  destruct (reversed_range_same_aggregation
              exact_avg sample_db "2017-08-23" "2017-08-01"
              eq_refl eq_refl eq_refl) as (E & _ & Hsame & _).
  split; [exact E|]. apply Hsame. vm_compute. discriminate.
Defined.

(** C3 as stated fails where nothing matches: here the reversed query and
    the ascending query answer with different texts, whatever [avg]
    computes. *)
Lemma reversed_range_no_match_differs :
  date_format_ok "2010-01-03" = true
  /\ date_format_ok "2010-01-01" = true
  /\ Text.gt "2010-01-03" "2010-01-01" = true
  /\ forall sqlite_avg,
      calc_temps_start_end sqlite_avg sample_db "2010-01-03" "2010-01-01"
      <> calc_temps_start_end sqlite_avg sample_db "2010-01-01" "2010-01-03".
Proof.
  repeat split. intros sqlite_avg H. vm_compute in H. discriminate H.
Qed.

Lemma precipitation_series_witness :
  exists series : list (string * option Q),
    precipitation ascii_digits_only stable_sort_values sample_db
    = Ok (Jsonify
            (JObj [("Precipitation",
                    JObj (map (fun kv =>
                                 (fst kv,
                                  json_of_amount
                                    (numeric_column
                                       (last_year_records sample_since sample_db))
                                    (snd kv)))
                              series))]))
    /\ StronglySorted (fun a b => Text.lt a b = true) (map fst series).
Proof.
  destruct (precipitation_series ascii_digits_only stable_sort_values sample_db
              sample_since stable_sort_values_perm eq_refl)
    as (series & Hpayload & Hsorted & _).
  exists series. split; [exact Hpayload | exact Hsorted].
Defined.

(** C4 as stated fails: the payload does not map dates to precipitation.
    Its only key is the column name, which is the date of no row. *)
Lemma precipitation_payload_keyed_by_column :
  ~ In "Precipitation" (map date sample_db)
  /\ forall other_digit sort_values,
      exists fields,
        precipitation other_digit sort_values sample_db
        = Ok (Jsonify (JObj fields))
        /\ map fst fields = ["Precipitation"].
Proof.
  split.
  - simpl. intros H. repeat (destruct H as [H|H]; [discriminate H|]). exact H.
  - intros other_digit sort_values. eexists. split; reflexivity.
Qed.

Lemma last_year_365_days_before_witness :
  latest_date sample_db = Some "2017-08-23"
  /\ exists since,
      last_year ascii_digits_only sample_db = Ok since
      /\ Calendar.toordinal since = (Calendar.ymd2ord 2017 8 23 - 365)%Z
      /\ valid_date since
      /\ Calendar.hour since = 0%Z /\ Calendar.minute since = 0%Z
      /\ Calendar.second since = 0%Z /\ Calendar.microsecond since = 0%Z.
Proof.
  apply (last_year_365_days_before ascii_digits_only sample_db
           (row "USC00519397" "2017-08-23" None (Some 82%Q)) 2017 8 23).
  - do 3 right. now left.
  - intros r Hr. cbn [sample_db In] in Hr.
    repeat (destruct Hr as [<-|Hr]; [reflexivity|]). destruct Hr.
  - unfold valid_date. repeat split; vm_compute; discriminate.
  - reflexivity.
  - reflexivity.
Defined.

Lemma temperature_payload_one_row_witness :
  exists lo mean hi,
    calc_temps exact_avg sample_db "2017-08-01" None
    = [(Some lo, Some mean, Some hi)]
    /\ calc_temps_start exact_avg sample_db "2017-08-01"
       = Jsonify (JArr [JArr [JNum lo; json_of_real mean; JNum hi]]).
Proof.
  apply (temperature_payload_one_row
           exact_avg sample_db "2017-08-01" "2017-08-23");
    [reflexivity|].
  exists (row "USC00519397" "2017-08-01" (Some 0.5%Q) (Some 77%Q)).
  split; [do 2 right; left; reflexivity|].
  split; [reflexivity | discriminate].
Defined.

(** C7 as stated fails: the payload is not the flat list [min, avg, max],
    whatever [avg] computes. *)
Lemma temperature_payload_not_flat :
  date_format_ok "2017-08-01" = true
  /\ (exists r, In r sample_db /\ in_range "2017-08-01" None r = true)
  /\ ~ exists sqlite_avg lo mean hi,
        calc_temps_start sqlite_avg sample_db "2017-08-01"
        = Jsonify (JArr [JNum lo; mean; JNum hi]).
Proof.
  split; [reflexivity|]. split.
  - exists (row "USC00519397" "2017-08-01" (Some 0.5%Q) (Some 77%Q)).
    split; [do 2 right; left; reflexivity | reflexivity].
  - intros (sqlite_avg & lo & mean & hi & H). vm_compute in H. discriminate H.
Qed.

Lemma stations_once_each_witness :
  exists names,
    stations sample_db = Jsonify (JArr (map (fun s => JArr [JStr s]) names))
    /\ NoDup names
    /\ (forall s, In s names <-> exists r, In r sample_db /\ station r = s)
    /\ (forall db',
          (forall s, In s (map station sample_db) <-> In s (map station db')) ->
          exists names',
            stations db' = Jsonify (JArr (map (fun s => JArr [JStr s]) names'))
            /\ Permutation names names'
            /\ List.length names = List.length names')
    /\ (forall db', db' = sample_db -> stations db' = stations sample_db).
Proof. exact (stations_once_each sample_db). Defined.

Lemma rows_written_as_one_element_lists_witness :
  exists items,
    tobs_route ascii_digits_only sample_db = Ok (Jsonify (JArr items))
    /\ Forall (fun j => exists r, In r sample_db
                                  /\ j = JArr [json_of_number (tobs r)]) items.
Proof.
  eapply (rows_written_as_one_element_lists ascii_digits_only sample_db).
  reflexivity.
Defined.

Lemma start_after_latest_no_match_witness :
  calc_temps_start exact_avg sample_db "2020-01-01"
  = Text (no_match_start_message "2020-01-01").
Proof.
  apply (start_after_latest_no_match exact_avg sample_db "2020-01-01");
    reflexivity.
Defined.

Lemma end_after_all_dates_is_open_range_witness :
  calc_temps exact_avg sample_db "2017-01-01" (Some "2017-08-23")
  = calc_temps exact_avg sample_db "2017-01-01" None.
Proof.
  apply (end_after_all_dates_is_open_range
           exact_avg sample_db "2017-01-01" "2017-08-23").
  intros r Hr. cbn [sample_db In] in Hr.
  repeat (destruct Hr as [<-|Hr]; [reflexivity|]). destruct Hr.
Defined.

Lemma earlier_start_widens_witness :
  exists lo2 mean2 hi2,
    calc_temps exact_avg sample_db "2016-01-01" None
    = [(Some lo2, Some mean2, Some hi2)]
    /\ (lo2 <= 76)%Q /\ (82 <= hi2)%Q.
Proof.
  apply (earlier_start_widens exact_avg sample_db "2017-08-01" "2016-01-01" None
           76%Q (Finite (235 # 3)) 82%Q); reflexivity.
Defined.

Lemma calc_temps_row_order_witness :
  calc_temps exact_avg sample_db "2017-08-01" None = []
  <-> calc_temps exact_avg (rev sample_db) "2017-08-01" None = [].
Proof.
  apply (calc_temps_row_order
           exact_avg sample_db (rev sample_db) "2017-08-01" None).
  apply Permutation_rev.
Defined.

Lemma date_check_reads_ten_characters_witness :
  date_format_ok ("2017-08-23" ++ "T10:30") = true.
Proof.
  apply (date_check_reads_ten_characters "2017-08-23"). reflexivity.
Defined.

Lemma window_routes_failures_witness :
  last_year ascii_digits_only year_one_db = Raise OverflowError.
Proof.
  eapply (window_routes_failures ascii_digits_only stable_sort_values
            year_one_db);
    [reflexivity | reflexivity | vm_compute; discriminate].
Defined.

Lemma window_rows_after_start_day_witness :
  window_rows sample_since sample_db
  = filter (fun r => Text.lt (Calendar.date_text sample_since) (date r))
           sample_db.
Proof.
  apply (window_rows_after_start_day sample_since sample_db).
  intros r Hr. cbn [sample_db In] in Hr.
  repeat (destruct Hr as [<-|Hr]; [reflexivity|]). destruct Hr.
Defined.

Lemma precipitation_unique_dates_sort_free_witness :
  precipitation ascii_digits_only stable_sort_values one_station_db
  = precipitation ascii_digits_only (fun l => rev l) one_station_db.
Proof.
  apply (precipitation_unique_dates_sort_free ascii_digits_only
           stable_sort_values (fun l => rev l) one_station_db sample_since).
  - apply stable_sort_values_perm.
  - intros l. symmetry. apply Permutation_rev.
  - reflexivity.
  - cbn. repeat constructor; cbn; intuition discriminate.
Defined.


Lemma checked_dates_compare_as_days_witness :
  Text.gt "2017-08-23" "2016-02-29" = true
  <-> (Calendar.toordinal (midnight 2016 2 29)
       < Calendar.toordinal (midnight 2017 8 23))%Z.
Proof.
  apply (checked_dates_compare_as_days
           ascii_digits_only "2017-08-23" "2016-02-29");
    reflexivity.
Defined.

Lemma window_is_the_last_365_days_witness :
  exists since,
    last_year ascii_digits_only sample_db = Ok since
    /\ forall r tr,
        In r sample_db ->
        date_format_ok (date r) = true ->
        Calendar.strptime ascii_digits_only (Some (date r)) = Ok tr ->
        (In r (window_rows since sample_db)
         <-> (Calendar.toordinal (midnight 2017 8 23) - 365
              < Calendar.toordinal tr)%Z)
        /\ (date r = "2017-08-23" -> In r (window_rows since sample_db)).
Proof.
  apply (window_is_the_last_365_days ascii_digits_only sample_db "2017-08-23");
    reflexivity.
Defined.

Lemma range_ends_included_witness :
  exists lo mean hi,
    calc_temps exact_avg sample_db "2017-08-01" (Some "2017-08-23")
    = [(Some lo, Some mean, Some hi)]
    /\ (lo <= 82 <= hi)%Q.
Proof.
  apply (range_ends_included exact_avg sample_db "2017-08-01" "2017-08-23"
           (row "USC00519397" "2017-08-23" None (Some 82%Q)) 82%Q).
  - do 3 right. now left.
  - reflexivity.
  - reflexivity.
  - now right.
Defined.

Lemma stations_count_witness : stations [] = Jsonify (JArr []).
Proof. apply (stations_count []). reflexivity. Defined.

Lemma precipitation_agreed_amount_witness :
  exists series : list (string * option Q),
    precipitation ascii_digits_only stable_sort_values sample_db
    = Ok (Jsonify
            (JObj [("Precipitation",
                    JObj (map (fun kv =>
                                 (fst kv,
                                  json_of_amount
                                    (numeric_column
                                       (last_year_records sample_since sample_db))
                                    (snd kv)))
                              series))]))
    /\ In ("2016-08-24", Some 0.2%Q) series.
Proof.
  apply (precipitation_agreed_amount ascii_digits_only stable_sort_values
           sample_db sample_since
           (row "USC00519397" "2016-08-24" (Some 0.2%Q) None)).
  - apply stable_sort_values_perm.
  - reflexivity.
  - cbn. now left.
  - intros r' Hr' E. cbn in Hr'.
    repeat (destruct Hr' as [<-|Hr']; [try reflexivity; discriminate E|]).
    destruct Hr'.
Defined.
